(** * Dark-store rack layout optimizer: placement and scoring engine

    A shallow embedding of the three JavaScript engines of the repository

    - [optimizer.js]        class [RackOptimizer]  (metres, 2 m grid),
    - the enhanced engine   class [RackOptimizer]  (feet, 4 ft grid, store
                            shapes, genetic search),
    - [image-optimizer.js]  class [ImageLayoutOptimizer],

    followed by the properties of their placement validator, grid and
    genetic strategies, rack generator and scoring model.

    JavaScript numbers are IEEE 754 binary64 values: they are modelled by
    Rocq's primitive floats, so that [0 / 0] is [nan], [1 / 0] is
    [infinity] and every comparison with [nan] is [false], exactly as in
    the source.  [Math.random] is modelled by an explicit sequence of draws
    threaded through the randomised methods. *)

From Stdlib Require Import Floats ZArith List String Bool Lia.
From Stdlib Require Import DecimalString.
From Stdlib Require DecimalNat DecimalFacts.
Import ListNotations.

(* Decimal literals such as 0.3 denote the nearest binary64 value, as they
   do in JavaScript. *)
Set Warnings "-inexact-float".

Open Scope float_scope.

(** ** JavaScript numbers and the [Math] object *)

Module JS.

(** [a > b] and [a >= b]: false as soon as one side is [NaN]. *)
Definition gtb (a b : float) : bool := b <? a.
Definition geb (a b : float) : bool := b <=? a.

(** An integer as a number (exact below 2^53). *)
Definition float_of_Z (z : Z) : float :=
  match z with
  | Z0 => 0
  | Zpos p => SF2Prim (S754_finite false p 0)
  | Zneg p => SF2Prim (S754_finite true p 0)
  end.

(** [array.length] as a number. *)
Definition float_of_nat (n : nat) : float := float_of_Z (Z.of_nat n).

(** [Math.floor]: [NaN], the infinities and the zeros are returned as they
    are; a finite [m * 2^e] with [e < 0] is rounded towards minus infinity. *)
Definition Math_floor (v : float) : float :=
  match Prim2SF v with
  | S754_finite s m e =>
      if (0 <=? e)%Z then v
      else float_of_Z (Z.shiftr (if s then Z.neg m else Z.pos m) (- e))
  | _ => v
  end.

(** [Math.round]: the nearest integer, ties towards plus infinity; a
    negative argument that rounds to zero gives [-0]. *)
Definition Math_round (v : float) : float :=
  match Prim2SF v with
  | S754_finite s m e =>
      if (0 <=? e)%Z then v
      else
        let f := Math_floor v in
        let r := if 0.5 <=? v - f then f + 1 else f in
        if s && (r =? 0) then -0 else r
  | _ => v
  end.

(** [Math.max(a, b)] and [Math.min(a, b)]: [NaN] if either argument is
    [NaN]; [+0] is larger than [-0]. *)
Definition Math_max (a b : float) : float :=
  if is_nan a || is_nan b then nan
  else if a <? b then b
  else if b <? a then a
  else if get_sign a then b else a.

Definition Math_min (a b : float) : float :=
  if is_nan a || is_nan b then nan
  else if a <? b then a
  else if b <? a then b
  else if get_sign a then a else b.

Definition Math_sqrt (v : float) : float := PrimFloat.sqrt v.

(** [Math.pow(v, 2)], the only use of [Math.pow] in the engines: the
    square of [v]. *)
Definition Math_pow2 (v : float) : float := v * v.

(** The key of [array[v]] for a number [v]: an index when [v] is a
    non-negative integer (or a zero), no index otherwise. *)
Definition index_of (v : float) : option Z :=
  match Prim2SF v with
  | S754_zero _ => Some 0%Z
  | S754_finite false m e =>
      if (0 <=? e)%Z then Some (Z.shiftl (Z.pos m) e)
      else
        let z := Z.shiftr (Z.pos m) (- e) in
        if (Z.shiftl z (- e) =? Z.pos m)%Z then Some z else None
  | _ => None
  end.

(** [array[v]]: the element at that index, [undefined] ([None]) when there
    is none. *)
Definition element {A : Type} (array : list A) (v : float) : option A :=
  match index_of v with
  | Some z =>
      if (z <? Z.of_nat (List.length array))%Z
      then nth_error array (Z.to_nat z)
      else None
  | None => None
  end.

(** The decimal numeral of a counter, as a template literal prints it. *)
Definition decimal (n : nat) : string := NilZero.string_of_uint (Nat.to_uint n).

(** SameValueZero, the equality of [Set]: [NaN] equals [NaN], [+0]
    equals [-0]. *)
Definition sameValueZero (a b : float) : bool :=
  (a =? b) || (is_nan a && is_nan b).

(** [[...new Set(values)]]: the distinct values in order of first
    occurrence. *)
Definition setOf (values : list float) : list float :=
  fold_left
    (fun seen v => if existsb (sameValueZero v) seen then seen else seen ++ [v])
    values [].

(** [array.sort(compare)] is a stable sort: an element is inserted after
    every element it does not have to precede.  [compare a b > 0] asks
    for [b] before [a]. *)
Section Sort.
Context {A : Type} (compare : A -> A -> float).

Fixpoint insertSorted (v : A) (sorted : list A) : list A :=
  match sorted with
  | [] => [v]
  | e :: rest =>
      if gtb (compare e v) 0 then v :: e :: rest
      else e :: insertSorted v rest
  end.

Definition sort (l : list A) : list A :=
  fold_left (fun sorted v => insertSorted v sorted) l [].

End Sort.

(** *** [Math.random] and exceptions

    A randomised method reads the sequence of draws [src] from the cursor
    on and returns its result with the new cursor; [None] is a thrown
    [TypeError] (a property read on [undefined] or [null]). *)
Definition Rand (A : Type) : Type := (nat -> float) -> nat -> option (A * nat).

Definition ret {A} (a : A) : Rand A := fun _ n => Some (a, n).

Definition bind {A B} (m : Rand A) (k : A -> Rand B) : Rand B :=
  fun src n =>
    match m src n with
    | Some (a, n') => k a src n'
    | None => None
    end.

Definition Math_random : Rand float := fun src n => Some (src n, S n).

Definition throw {A} : Rand A := fun _ _ => None.

(** The value a run returns, the cursor dropped. *)
Definition run {A} (m : Rand A) (src : nat -> float) : option A :=
  match m src 0%nat with
  | Some (a, _) => Some a
  | None => None
  end.

End JS.

Import JS.

Notation "x <- m ;; k" := (bind m (fun x => k))
  (at level 61, m at next level, right associativity).

(** ** Data model *)

Module Point.
Record t : Type := mk { x : float; y : float }.
End Point.

Module Dimensions.
Record t : Type := mk { width : float; height : float }.
End Dimensions.

Inductive RackType : Type := standard | high_density | freezer | bulk.

(** The type as the string the source uses for it. *)
Definition typeName (ty : RackType) : string :=
  match ty with
  | standard => "standard"
  | high_density => "high-density"
  | freezer => "freezer"
  | bulk => "bulk"
  end.

Module RackSpec.
Record t : Type := mk {
  width : float;
  height : float;
  capacity : float;
  color : string;
  name : option string
}.
End RackSpec.

(** A rack: [{ id, type, ...spec, position }], [position] being [null]
    until the rack is placed. *)
Module Rack.
Record t : Type := mk {
  id : string;
  type : RackType;
  width : float;
  height : float;
  capacity : float;
  color : string;
  name : option string;
  position : option Point.t
}.

(** [{ ...rack, position: p }], also the effect of [rack.position = p]. *)
Definition withPosition (rack : t) (p : option Point.t) : t :=
  mk (id rack) (type rack) (width rack) (height rack) (capacity rack)
     (color rack) (name rack) p.

Definition dimensions (rack : t) : Dimensions.t :=
  Dimensions.mk (width rack) (height rack).
End Rack.

(** One rectangle of a store shape. *)
Module StoreSection.
Record t : Type := mk { x : float; y : float; width : float; height : float }.
End StoreSection.

(** A fixed obstacle ([layout.constraints]). *)
Module Constraint.
Record t : Type := mk {
  name : string;
  position : Point.t;
  dimensions : Dimensions.t;
  type : string;
  color : string
}.
End Constraint.

Module Layout.
Record t : Type := mk {
  width : float;
  height : float;
  storeShape : option (list StoreSection.t);
  constraints : list Constraint.t;
  entrance : Point.t;
  loadingDock : Point.t
}.
End Layout.

Module ScoreResult.
Record t : Type := mk {
  totalScore : float;
  layoutEfficiency : float;
  accessibility : float;
  workflow : float
}.
End ScoreResult.

Module Metrics.
Record t : Type := mk {
  totalRacks : nat;
  totalCapacity : float;
  avgDistanceToEntrance : float;
  avgDistanceToDock : float;
  areaUtilization : float;
  layoutEfficiency : float;
  accessibility : float;
  workflow : float
}.
End Metrics.

(** What a placement strategy returns: [{ racks, score, metrics }]. *)
Module Solution.
Record t : Type := mk {
  racks : list Rack.t;
  score : float;
  metrics : Metrics.t
}.
End Solution.

(** An entry of the evaluated population of the genetic strategy. *)
Module Evaluated.
Record t : Type := mk {
  individual : list Rack.t;
  fitness : float;
  solution : Solution.t
}.
End Evaluated.

(** What [optimizeLayout] returns. *)
Module OptimizationResult.
Record t : Type := mk {
  racks : list Rack.t;
  score : float;
  metrics : Metrics.t;
  layout : Layout.t
}.
End OptimizationResult.

(** The rack counts of a configuration, as [parseInt] delivers them; a
    count that is not positive generates no rack. *)
Module RackCounts.
Record t : Type := mk {
  standardRacks : Z;
  highDensityRacks : Z;
  freezerRacks : Z;
  bulkRacks : Z
}.
End RackCounts.

(** The engine object ([this]): the fields set by the constructor, and the
    two literals of the method bodies in which the engines differ, the grid
    step of [placeRacks] and the density placeholder of [calculateScore]. *)
Module RackOptimizer.
Record t : Type := mk {
  rackSpecs : RackType -> RackSpec.t;
  minAisleWidth : float;
  populationSize : nat;
  generations : nat;
  mutationRate : float;
  eliteCount : nat;
  gridStep : float;
  densityPlaceholder : float
}.
End RackOptimizer.

(** [array[i] = v] for an index inside the array. *)
Fixpoint updateAt {A : Type} (i : nat) (v : A) (l : list A) : list A :=
  match l, i with
  | [], _ => []
  | _ :: rest, O => v :: rest
  | e :: rest, S i' => e :: updateAt i' v rest
  end.

(** The entries of an array that are not [undefined]. *)
Definition defined {A : Type} (l : list (option A)) : list A :=
  flat_map (fun e => match e with Some a => [a] | None => [] end) l.

(** ** Geometry kernel *)

Definition rectanglesOverlap (pos1 : Point.t) (dim1 : Dimensions.t)
    (pos2 : Point.t) (dim2 : Dimensions.t) : bool :=
  negb ((Point.x pos1 + Dimensions.width dim1 <=? Point.x pos2)
        || (Point.x pos2 + Dimensions.width dim2 <=? Point.x pos1)
        || (Point.y pos1 + Dimensions.height dim1 <=? Point.y pos2)
        || (Point.y pos2 + Dimensions.height dim2 <=? Point.y pos1)).

Definition calculateDistance (pos1 pos2 : Point.t) : float :=
  Math_sqrt (Math_pow2 (Point.x pos1 - Point.x pos2)
             + Math_pow2 (Point.y pos1 - Point.y pos2)).

(** The centre of the footprint of [rack] when it stands at [position]. *)
Definition rackCenter (rack : Rack.t) (position : Point.t) : Point.t :=
  Point.mk (Point.x position + Rack.width rack / 2)
           (Point.y position + Rack.height rack / 2).

Definition isPointInStore (px py : float) (storeShape : list StoreSection.t)
    : bool :=
  existsb
    (fun section =>
       geb px (StoreSection.x section)
       && (px <=? StoreSection.x section + StoreSection.width section)
       && geb py (StoreSection.y section)
       && (py <=? StoreSection.y section + StoreSection.height section))
    storeShape.

Definition isRackInStoreShape (rack : Rack.t) (position : Point.t)
    (storeShape : list StoreSection.t) : bool :=
  let rackCorners :=
    [ Point.mk (Point.x position) (Point.y position);
      Point.mk (Point.x position + Rack.width rack) (Point.y position);
      Point.mk (Point.x position) (Point.y position + Rack.height rack);
      Point.mk (Point.x position + Rack.width rack)
               (Point.y position + Rack.height rack) ] in
  forallb (fun corner => isPointInStore (Point.x corner) (Point.y corner) storeShape)
          rackCorners.

Definition calculateVariance (values : list float) : float :=
  match values with
  | [] => 0
  | _ =>
      let n := float_of_nat (List.length values) in
      let mean := fold_left (fun sum val => sum + val) values 0 / n in
      fold_left (fun sum val => sum + Math_pow2 (val - mean)) values 0 / n
  end.

(** The gaps [coords[i] - coords[i-1]] for [i] from 1 on. *)
Fixpoint spacings (coords : list float) : list float :=
  match coords with
  | previous :: ((current :: _) as rest) => (current - previous) :: spacings rest
  | _ => []
  end.

(** The racks of a list that have a position ([rack.position] is truthy). *)
Definition isPlaced (rack : Rack.t) : bool :=
  match Rack.position rack with Some _ => true | None => false end.

(** ** The engine *)

Section Engine.

Variable this : RackOptimizer.t.

(** *** Placement validator *)

Fixpoint hasAdequateAisles (rack : Rack.t) (position : Point.t)
    (placedRacks : list Rack.t) : bool :=
  let minClearance := RackOptimizer.minAisleWidth this in
  match placedRacks with
  | [] => true
  | placedRack :: rest =>
      match Rack.position placedRack with
      | None => hasAdequateAisles rack position rest
      | Some placedPosition =>
          let distance :=
            calculateDistance (rackCenter rack position)
                              (rackCenter placedRack placedPosition) in
          let minRequiredDistance :=
            minClearance
            + (Rack.width rack + Rack.height rack
               + Rack.width placedRack + Rack.height placedRack) / 4 in
          if distance <? minRequiredDistance then false
          else hasAdequateAisles rack position rest
      end
  end.

Definition isValidPlacement (rack : Rack.t) (position : Point.t)
    (layout : Layout.t) (placedRacks : list Rack.t) : bool :=
  if (Point.x position <? 0) || (Point.y position <? 0)
     || gtb (Point.x position + Rack.width rack) (Layout.width layout)
     || gtb (Point.y position + Rack.height rack) (Layout.height layout)
  then false
  else if match Layout.storeShape layout with
          | Some storeShape => negb (isRackInStoreShape rack position storeShape)
          | None => false
          end
  then false
  else if existsb
            (fun constraint =>
               rectanglesOverlap position (Rack.dimensions rack)
                 (Constraint.position constraint)
                 (Constraint.dimensions constraint))
            (Layout.constraints layout)
  then false
  else if existsb
            (fun placedRack =>
               match Rack.position placedRack with
               | Some placedPosition =>
                   rectanglesOverlap position (Rack.dimensions rack)
                     placedPosition (Rack.dimensions placedRack)
               | None => false
               end)
            placedRacks
  then false
  else hasAdequateAisles rack position placedRacks.

(** *** Rack generator *)

(** The object pushed by [generateRacks]. *)
Definition newRack (ty : RackType) (id : nat) : Rack.t :=
  let spec := RackOptimizer.rackSpecs this ty in
  Rack.mk (typeName ty ++ "_" ++ decimal id)%string ty
          (RackSpec.width spec) (RackSpec.height spec) (RackSpec.capacity spec)
          (RackSpec.color spec) (RackSpec.name spec) None.

(** One of the four [for] loops: [count] pushes, each using and then
    incrementing the counter [id] shared by the four loops. *)
Fixpoint pushRacks (ty : RackType) (count : nat) (st : list Rack.t * nat)
    : list Rack.t * nat :=
  match count with
  | O => st
  | S count' =>
      let (racks, id) := st in
      pushRacks ty count' (racks ++ [newRack ty id], S id)
  end.

Definition generateRacks (config : RackCounts.t) : list Rack.t :=
  let st := ([], 1%nat) in
  let st := pushRacks standard (Z.to_nat (RackCounts.standardRacks config)) st in
  let st := pushRacks high_density (Z.to_nat (RackCounts.highDensityRacks config)) st in
  let st := pushRacks freezer (Z.to_nat (RackCounts.freezerRacks config)) st in
  let st := pushRacks bulk (Z.to_nat (RackCounts.bulkRacks config)) st in
  fst st.

(** *** Scoring engine and metrics *)

Definition totalRackArea (racks : list Rack.t) : float :=
  fold_left (fun sum rack => sum + Rack.width rack * Rack.height rack) racks 0.

Definition calculateLayoutArea (layout : Layout.t) : float :=
  match Layout.storeShape layout with
  | Some storeShape =>
      fold_left
        (fun sum section =>
           sum + StoreSection.width section * StoreSection.height section)
        storeShape 0
  | None => Layout.width layout * Layout.height layout
  end.

Definition calculateAccessibility (racks : list Rack.t) (layout : Layout.t)
    : float :=
  match racks with
  | [] => 0
  | _ =>
      let maxDistance :=
        Math_sqrt (Layout.width layout * Layout.width layout
                   + Layout.height layout * Layout.height layout) in
      let totalScore :=
        fold_left
          (fun totalScore rack =>
             match Rack.position rack with
             | None => totalScore
             | Some position =>
                 let center := rackCenter rack position in
                 let entranceDistance :=
                   calculateDistance center (Layout.entrance layout) in
                 let dockDistance :=
                   calculateDistance center (Layout.loadingDock layout) in
                 let entranceScore := 1 - entranceDistance / maxDistance in
                 let dockScore := 1 - dockDistance / maxDistance in
                 totalScore + (entranceScore + dockScore) / 2
             end)
          racks 0 in
      totalScore / float_of_nat (List.length racks)
  end.

Definition calculateWorkflow (racks : list Rack.t) : float :=
  if Nat.ltb (List.length racks) 2 then 1
  else
    let positions :=
      flat_map
        (fun rack =>
           match Rack.position rack with
           | Some position => [position]
           | None => []
           end)
        racks in
    if Nat.ltb (List.length positions) 2 then 0.5
    else
      let ascending := fun a b : float => a - b in
      let xCoords := sort ascending (setOf (map Point.x positions)) in
      let yCoords := sort ascending (setOf (map Point.y positions)) in
      let regularityScore :=
        if Nat.ltb 1 (List.length xCoords) && Nat.ltb 1 (List.length yCoords) then
          let xVariance := calculateVariance (spacings xCoords) in
          let yVariance := calculateVariance (spacings yCoords) in
          1 / (1 + xVariance + yVariance)
        else 0 in
      Math_min 1 (Math_max 0 regularityScore).

Definition calculateScore (racks : list Rack.t) (layout : Layout.t)
    : ScoreResult.t :=
  match racks with
  | [] => ScoreResult.mk 0 0 0 0
  | _ =>
      let layoutArea := calculateLayoutArea layout in
      let layoutEfficiency := totalRackArea racks / layoutArea in
      let accessibility := calculateAccessibility racks layout in
      let workflow := calculateWorkflow racks in
      let totalScore :=
        layoutEfficiency * 30 + accessibility * 25 + workflow * 25
        + RackOptimizer.densityPlaceholder this * 20 in
      ScoreResult.mk (Math_min 100 (Math_max 0 totalScore))
        layoutEfficiency accessibility workflow
  end.

Definition calculateAverageDistance (racks : list Rack.t) (point : Point.t)
    : float :=
  match racks with
  | [] => 0
  | _ =>
      let distances :=
        map
          (fun rack =>
             match Rack.position rack with
             | None => 0
             | Some position => calculateDistance (rackCenter rack position) point
             end)
          racks in
      fold_left (fun sum dist => sum + dist) distances 0
      / float_of_nat (List.length distances)
  end.

(** [calculateMetrics], completed with the three score fields its two
    callers spread into [metrics]. *)
Definition calculateMetrics (racks : list Rack.t) (layout : Layout.t)
    (score : ScoreResult.t) : Metrics.t :=
  let totalCapacity :=
    fold_left (fun sum rack => sum + Rack.capacity rack) racks 0 in
  let totalRacks := List.length racks in
  let avgDistanceToEntrance :=
    calculateAverageDistance racks (Layout.entrance layout) in
  let avgDistanceToDock :=
    calculateAverageDistance racks (Layout.loadingDock layout) in
  Metrics.mk totalRacks totalCapacity avgDistanceToEntrance avgDistanceToDock
    (totalRackArea racks / calculateLayoutArea layout)
    (ScoreResult.layoutEfficiency score) (ScoreResult.accessibility score)
    (ScoreResult.workflow score).

(** [{ racks, score: score.totalScore, metrics: { ...metrics, ... } }], the
    tail shared by [placeRacks] and [evaluateIndividual]. *)
Definition solutionOf (placedRacks : list Rack.t) (layout : Layout.t)
    : Solution.t :=
  let score := calculateScore placedRacks layout in
  Solution.mk placedRacks (ScoreResult.totalScore score)
    (calculateMetrics placedRacks layout score).

(** *** Grid placement strategy *)

Definition maxAttempts : nat := 100.

Section GridScan.

Variables (rack : Rack.t) (layout : Layout.t) (placedRacks : list Rack.t).
Variables (gridX gridY : float).

(** The inner loop over [j] for one [i].  [remaining] is
    [maxAttempts - attempts]: the guard [attempts < maxAttempts] holds
    while it is not zero, and [attempts++] decrements it.  The result is
    the position found, if any, with what remains of the attempts. *)
Fixpoint scanColumn (i : float) (remaining : nat) (j : float)
    : option Point.t * nat :=
  match remaining with
  | O => (None, O)
  | S remaining' =>
      if j <? gridY then
        let position :=
          Point.mk (i * RackOptimizer.gridStep this)
                   (j * RackOptimizer.gridStep this) in
        if isValidPlacement rack position layout placedRacks
        then (Some position, remaining')
        else scanColumn i remaining' (j + 1)
      else (None, remaining)
  end.

(** The outer loop over [i] as the source runs it, its guard tested at most
    [fuel] times: [None] when the guard still holds after [fuel] tests (the
    loop has not ended), [Some found] when the loop has ended, with the
    position found, if any.  The counter [i] is a double: [i + 1] is the
    [i++] of the source.  When the grid has no row of cells ([0 < gridY]
    fails) the body counts no attempt, and the loop ends only where
    [i < gridX] fails. *)
Fixpoint scanRowsWithin (fuel remaining : nat) (i : float)
    : option (option Point.t) :=
  match fuel with
  | O => None
  | S fuel' =>
      if (i <? gridX) && Nat.ltb 0 remaining then
        match scanColumn i remaining 0 with
        | (Some position, _) => Some (Some position)
        | (None, remaining') => scanRowsWithin fuel' remaining' (i + 1)
        end
      else Some None
  end.

(** The outcome of the outer loop over [i] when the loop ends (lemma
    [scanRowsWithin_agrees] below): an iteration that tries a cell uses
    one attempt or more, and an iteration that tries none finds nothing,
    so [maxAttempts] iterations decide what the loop can find (lemma
    [scanRows_fuel] below). *)
Fixpoint scanRows (fuel remaining : nat) (i : float) : option Point.t :=
  match fuel with
  | O => None
  | S fuel' =>
      if (i <? gridX) && Nat.ltb 0 remaining then
        match scanColumn i remaining 0 with
        | (Some position, _) => Some position
        | (None, remaining') => scanRows fuel' remaining' (i + 1)
        end
      else None
  end.

End GridScan.

(** The body of [for (const rack of racks)], once its loops have ended:
    the rack is pushed, with its position set, at the first valid cell; a
    rack without a valid cell is not pushed.  The racks of the list are distinct objects (each is a
    fresh object literal of [generateRacks]), so setting the position of one
    leaves those already pushed as they are. *)
Definition placeRack (layout : Layout.t) (gridX gridY : float)
    (placedRacks : list Rack.t) (rack : Rack.t) : list Rack.t :=
  match scanRows rack layout placedRacks gridX gridY maxAttempts maxAttempts 0 with
  | Some position => placedRacks ++ [Rack.withPosition rack (Some position)]
  | None => placedRacks
  end.

Definition placeRacks (racks : list Rack.t) (layout : Layout.t) : Solution.t :=
  let gridX := Math_floor (Layout.width layout / RackOptimizer.gridStep this) in
  let gridY := Math_floor (Layout.height layout / RackOptimizer.gridStep this) in
  let placedRacks := fold_left (placeRack layout gridX gridY) racks [] in
  solutionOf placedRacks layout.

(** [placeRacks] with the outer loop of every rack run for at most [fuel]
    tests of its guard: [None] when one of the loops has not ended. *)
Definition placeRackWithin (fuel : nat) (layout : Layout.t)
    (gridX gridY : float) (placedRacks : list Rack.t) (rack : Rack.t)
    : option (list Rack.t) :=
  match scanRowsWithin rack layout placedRacks gridX gridY fuel maxAttempts 0 with
  | Some (Some position) =>
      Some (placedRacks ++ [Rack.withPosition rack (Some position)])
  | Some None => Some placedRacks
  | None => None
  end.

Fixpoint placeAllWithin (fuel : nat) (layout : Layout.t) (gridX gridY : float)
    (racks : list Rack.t) (placedRacks : list Rack.t) : option (list Rack.t) :=
  match racks with
  | [] => Some placedRacks
  | rack :: rest =>
      match placeRackWithin fuel layout gridX gridY placedRacks rack with
      | Some placedRacks' =>
          placeAllWithin fuel layout gridX gridY rest placedRacks'
      | None => None
      end
  end.

Definition placeRacksWithin (fuel : nat) (racks : list Rack.t)
    (layout : Layout.t) : option Solution.t :=
  let gridX := Math_floor (Layout.width layout / RackOptimizer.gridStep this) in
  let gridY := Math_floor (Layout.height layout / RackOptimizer.gridStep this) in
  match placeAllWithin fuel layout gridX gridY racks [] with
  | Some placedRacks => Some (solutionOf placedRacks layout)
  | None => None
  end.

(** [gridBasedOptimization] of the enhanced engine. *)
Definition gridBasedOptimization (racks : list Rack.t) (layout : Layout.t)
    : Solution.t :=
  placeRacks racks layout.

(** *** Genetic placement strategy *)

(** The loop [while (!placed && attempts < cap)] of
    [createRandomIndividual], [remaining] being [cap - attempts]: two
    draws per attempt, the first valid position wins. *)
Fixpoint tryRandomPositions (remaining : nat) (rack : Rack.t)
    (layout : Layout.t) (individual : list Rack.t) : Rand (option Point.t) :=
  match remaining with
  | O => ret None
  | S remaining' =>
      rx <- Math_random ;;
      ry <- Math_random ;;
      let position :=
        Point.mk (rx * (Layout.width layout - Rack.width rack))
                 (ry * (Layout.height layout - Rack.height rack)) in
      if isValidPlacement rack position layout individual
      then ret (Some position)
      else tryRandomPositions remaining' rack layout individual
  end.

(** [for (const rack of racks)] of [createRandomIndividual]: every rack is
    pushed, with the position found or with [null]. *)
Fixpoint createFrom (cap : nat) (racks : list Rack.t) (layout : Layout.t)
    (individual : list Rack.t) : Rand (list Rack.t) :=
  match racks with
  | [] => ret individual
  | rack :: rest =>
      found <- tryRandomPositions cap rack layout individual ;;
      createFrom cap rest layout (individual ++ [Rack.withPosition rack found])
  end.

Definition createRandomIndividual (racks : list Rack.t) (layout : Layout.t)
    : Rand (list Rack.t) :=
  createFrom 100 racks layout [].

Fixpoint initializeFrom (count : nat) (racks : list Rack.t)
    (layout : Layout.t) (population : list (list Rack.t))
    : Rand (list (list Rack.t)) :=
  match count with
  | O => ret population
  | S count' =>
      individual <- createRandomIndividual racks layout ;;
      initializeFrom count' racks layout (population ++ [individual])
  end.

Definition initializePopulation (racks : list Rack.t) (layout : Layout.t)
    : Rand (list (list Rack.t)) :=
  initializeFrom (RackOptimizer.populationSize this) racks layout [].

(** The comparator [(a, b) => b.fitness - a.fitness]. *)
Definition byFitnessDescending (a b : Evaluated.t) : float :=
  Evaluated.fitness b - Evaluated.fitness a.

(** The [tournamentSize] draws; an index outside the population reads
    [undefined]. *)
Fixpoint drawTournament (count : nat) (population : list Evaluated.t)
    (tournament : list (option Evaluated.t))
    : Rand (list (option Evaluated.t)) :=
  match count with
  | O => ret tournament
  | S count' =>
      r <- Math_random ;;
      let randomIndex :=
        Math_floor (r * float_of_nat (List.length population)) in
      drawTournament count' population
        (tournament ++ [element population randomIndex])
  end.

(** [sort] moves [undefined] entries behind the sorted others; reading
    [.individual] on an [undefined] first entry throws. *)
Definition tournamentSelection (population : list Evaluated.t)
    : Rand (list Rack.t) :=
  tournament <- drawTournament 3 population [] ;;
  match sort byFitnessDescending (defined tournament) with
  | best :: _ => ret (Evaluated.individual best)
  | [] => throw
  end.

(** [for (let i = 0; i < parent1.length; i++)] of [crossover], [rest1]
    being [parent1] from index [i] on.  The individuals of one run have the
    same length; the model stops where [parent2[i]] does not exist. *)
Fixpoint crossFrom (crossoverPoint : float) (i : nat) (rest1 : list Rack.t)
    (parent2 : list Rack.t) (offspring : list Rack.t) : Rand (list Rack.t) :=
  match rest1 with
  | [] => ret offspring
  | gene1 :: rest1' =>
      if float_of_nat i <? crossoverPoint
      then crossFrom crossoverPoint (S i) rest1' parent2 (offspring ++ [gene1])
      else
        match nth_error parent2 i with
        | Some gene2 =>
            crossFrom crossoverPoint (S i) rest1' parent2 (offspring ++ [gene2])
        | None => throw
        end
  end.

Definition crossover (parent1 parent2 : list Rack.t) : Rand (list Rack.t) :=
  r <- Math_random ;;
  let crossoverPoint := Math_floor (r * float_of_nat (List.length parent1)) in
  crossFrom crossoverPoint 0 parent1 parent2 [].

(** [mutated.filter((_, idx) => idx !== i && mutated[idx].position)],
    [idx] being the index of the head of [racks]. *)
Fixpoint otherRacksOf (i idx : nat) (racks : list Rack.t) : list Rack.t :=
  match racks with
  | [] => []
  | rack :: rest =>
      if negb (Nat.eqb idx i) && isPlaced rack
      then rack :: otherRacksOf i (S idx) rest
      else otherRacksOf i (S idx) rest
  end.

(** [for (let i = 0; i < mutated.length; i++)] of [mutate], [count] being
    [mutated.length - i].  One draw decides whether rack [i] is touched;
    a placed rack that is touched costs two more draws. *)
Fixpoint mutateFrom (count i : nat) (layout : Layout.t)
    (mutated : list Rack.t) : Rand (list Rack.t) :=
  match count with
  | O => ret mutated
  | S count' =>
      r <- Math_random ;;
      match nth_error mutated i with
      | None => ret mutated
      | Some rack =>
          match (if r <? RackOptimizer.mutationRate this
                 then Rack.position rack else None) with
          | None => mutateFrom count' (S i) layout mutated
          | Some position =>
              let maxAdjustment := 5 in
              rx <- Math_random ;;
              let deltaX := (rx - 0.5) * maxAdjustment in
              ry <- Math_random ;;
              let deltaY := (ry - 0.5) * maxAdjustment in
              let newX :=
                Math_max 0 (Math_min (Layout.width layout - Rack.width rack)
                                     (Point.x position + deltaX)) in
              let newY :=
                Math_max 0 (Math_min (Layout.height layout - Rack.height rack)
                                     (Point.y position + deltaY)) in
              let newPosition := Point.mk newX newY in
              let otherRacks := otherRacksOf i 0 mutated in
              if isValidPlacement rack newPosition layout otherRacks
              then mutateFrom count' (S i) layout
                     (updateAt i (Rack.withPosition rack (Some newPosition)) mutated)
              else mutateFrom count' (S i) layout mutated
          end
      end
  end.

Definition mutate (individual : list Rack.t) (layout : Layout.t)
    : Rand (list Rack.t) :=
  let mutated := individual in
  mutateFrom (List.length mutated) 0 layout mutated.

Definition evaluateIndividual (individual : list Rack.t) (layout : Layout.t)
    : Solution.t :=
  let placedRacks := filter isPlaced individual in
  solutionOf placedRacks layout.

(** The best solution seen so far and its score ([bestSolution],
    [bestScore]). *)
Definition Best : Type := (option Solution.t * float)%type.

(** The callback of [population.map] in the generation loop. *)
Definition evaluateOne (layout : Layout.t)
    (st : list Evaluated.t * Best) (individual : list Rack.t)
    : list Evaluated.t * Best :=
  let '(evaluatedPopulation, (bestSolution, bestScore)) := st in
  let solution := evaluateIndividual individual layout in
  let best :=
    if gtb (Solution.score solution) bestScore
    then (Some solution, Solution.score solution)
    else (bestSolution, bestScore) in
  (evaluatedPopulation
     ++ [Evaluated.mk individual (Solution.score solution) solution],
   best).

Definition evaluatePopulation (layout : Layout.t)
    (population : list (list Rack.t)) (best : Best)
    : list Evaluated.t * Best :=
  fold_left (evaluateOne layout) population ([], best).

(** Elite selection: [evaluatedPopulation[i].individual] for [i] below
    [eliteCount]. *)
Fixpoint takeElite (count i : nat) (evaluatedPopulation : list Evaluated.t)
    (nextGeneration : list (list Rack.t)) : Rand (list (list Rack.t)) :=
  match count with
  | O => ret nextGeneration
  | S count' =>
      match nth_error evaluatedPopulation i with
      | Some entry =>
          takeElite count' (S i) evaluatedPopulation
            (nextGeneration ++ [Evaluated.individual entry])
      | None => throw
      end
  end.

(** [while (nextGeneration.length < this.populationSize)], [count] being
    the number of individuals still missing. *)
Fixpoint breed (count : nat) (evaluatedPopulation : list Evaluated.t)
    (layout : Layout.t) (nextGeneration : list (list Rack.t))
    : Rand (list (list Rack.t)) :=
  match count with
  | O => ret nextGeneration
  | S count' =>
      parent1 <- tournamentSelection evaluatedPopulation ;;
      parent2 <- tournamentSelection evaluatedPopulation ;;
      offspring <- crossover parent1 parent2 ;;
      mutatedOffspring <- mutate offspring layout ;;
      breed count' evaluatedPopulation layout (nextGeneration ++ [mutatedOffspring])
  end.

(** One generation: evaluate, sort, keep the elite, breed the rest. *)
Definition nextGenerationOf (layout : Layout.t)
    (population : list (list Rack.t)) (best : Best)
    : Rand (list (list Rack.t) * Best) :=
  let (evaluated, best') := evaluatePopulation layout population best in
  let evaluatedPopulation := sort byFitnessDescending evaluated in
  elite <- takeElite (RackOptimizer.eliteCount this) 0 evaluatedPopulation [] ;;
  nextGeneration <-
    breed (RackOptimizer.populationSize this - List.length elite)
      evaluatedPopulation layout elite ;;
  ret (nextGeneration, best').

Fixpoint evolve (generations : nat) (layout : Layout.t)
    (population : list (list Rack.t)) (best : Best) : Rand Best :=
  match generations with
  | O => ret best
  | S generations' =>
      st <- nextGenerationOf layout population best ;;
      evolve generations' layout (fst st) (snd st)
  end.

(** The result is [bestSolution]: [None] is [null]. *)
Definition geneticAlgorithmOptimization (racks : list Rack.t)
    (layout : Layout.t) : Rand (option Solution.t) :=
  population <- initializePopulation racks layout ;;
  let bestSolution : option Solution.t := None in
  let bestScore := 0 in
  best <- evolve (RackOptimizer.generations this) layout population
            (bestSolution, bestScore) ;;
  ret (fst best).

End Engine.

(** ** The enhanced engine: store shapes and [optimizeLayout] *)

Module Enhanced.

(** The configuration read from the form. *)
Module Config.
Record t : Type := mk {
  storeShape : string;
  storeWidth : float;
  storeHeight : float;
  counts : RackCounts.t;
  processingArea : float;
  optimizationMethod : string
}.
End Config.

Definition rackSpecs (ty : RackType) : RackSpec.t :=
  match ty with
  | standard => RackSpec.mk 4 8 200 "#4CAF50" (Some "Standard"%string)
  | high_density => RackSpec.mk 2.5 10 300 "#2196F3" (Some "High-Density"%string)
  | freezer => RackSpec.mk 5 6.5 150 "#00BCD4" (Some "Freezer"%string)
  | bulk => RackSpec.mk 6.5 5 100 "#FF9800" (Some "Bulk Storage"%string)
  end.

(** The object built by the constructor, with the 4 ft grid step of
    [placeRacks] and the [0.3] of [calculateScore]. *)
Definition optimizer : RackOptimizer.t :=
  RackOptimizer.mk rackSpecs 2.5 50 100 0.1 5 4.0 0.3.

(** The keys under which every object literal finds a member inherited
    from [Object.prototype]; each of these members is truthy. *)
Definition inheritedMember (key : string) : bool :=
  existsb (String.eqb key)
    [ "constructor"; "hasOwnProperty"; "isPrototypeOf";
      "propertyIsEnumerable"; "toLocaleString"; "toString"; "valueOf";
      "__proto__"; "__defineGetter__"; "__defineSetter__";
      "__lookupGetter__"; "__lookupSetter__" ]%string.

(** [shapes[shapeType] || shapes.rectangular].  [None] is a member
    inherited from [Object.prototype], which the lookup finds before the
    fallback applies: it is not a list of sections and has no element
    0. *)
Definition getStoreShape (shapeType : string) (width height : float)
    : option (list StoreSection.t) :=
  if String.eqb shapeType "l-shaped" then
    Some
      [ StoreSection.mk 0 0 (width * 0.6) height;
        StoreSection.mk (width * 0.6) (height * 0.4) (width * 0.4)
          (height * 0.6) ]
  else if String.eqb shapeType "t-shaped" then
    Some
      [ StoreSection.mk 0 0 width (height * 0.4);
        StoreSection.mk (width * 0.3) (height * 0.4) (width * 0.4)
          (height * 0.6) ]
  else if inheritedMember shapeType then None
  else Some [ StoreSection.mk 0 0 width height ].

(** [storeShape[0]]; reading a field of a missing first section throws. *)
Definition firstSectionOf (storeShape : list StoreSection.t)
    : Rand StoreSection.t :=
  match storeShape with
  | firstSection :: _ => ret firstSection
  | [] => throw
  end.

Definition getProcessingArea (storeShape : list StoreSection.t)
    (processingAreaSize : float) : Rand Constraint.t :=
  firstSection <- firstSectionOf storeShape ;;
  let processingWidth := Math_sqrt processingAreaSize in
  let processingHeight := processingAreaSize / processingWidth in
  ret (Constraint.mk "processing"
         (Point.mk (StoreSection.x firstSection) (StoreSection.y firstSection))
         (Dimensions.mk processingWidth processingHeight)
         "processing" "#9C27B0").

Definition getEntrancePosition (storeShape : list StoreSection.t)
    : Rand Point.t :=
  firstSection <- firstSectionOf storeShape ;;
  ret (Point.mk
         (StoreSection.x firstSection + StoreSection.width firstSection - 2)
         (StoreSection.y firstSection + 2)).

Definition getLoadingDockPosition (storeShape : list StoreSection.t)
    : Rand Point.t :=
  firstSection <- firstSectionOf storeShape ;;
  ret (Point.mk
         (StoreSection.x firstSection + 2)
         (StoreSection.y firstSection + StoreSection.height firstSection - 4)).

(** The layout built by [optimizeLayout].  On an inherited member
    [getProcessingArea] reads [storeShape[0].x] of an [undefined] first
    section and throws. *)
Definition layoutOf (config : Config.t) : Rand Layout.t :=
  match getStoreShape (Config.storeShape config) (Config.storeWidth config)
          (Config.storeHeight config) with
  | Some storeShape =>
      processingArea <-
        getProcessingArea storeShape (Config.processingArea config) ;;
      entrance <- getEntrancePosition storeShape ;;
      loadingDock <- getLoadingDockPosition storeShape ;;
      ret (Layout.mk (Config.storeWidth config) (Config.storeHeight config)
             (Some storeShape) [processingArea] entrance loadingDock)
  | None => throw
  end.

(** [solution.racks] on a [null] solution throws. *)
Definition optimizeLayout (config : Config.t) : Rand OptimizationResult.t :=
  layout <- layoutOf config ;;
  let racks := generateRacks optimizer (Config.counts config) in
  solution <-
    (if String.eqb (Config.optimizationMethod config) "genetic"
     then
       found <- geneticAlgorithmOptimization optimizer racks layout ;;
       match found with
       | Some solution => ret solution
       | None => throw
       end
     else ret (gridBasedOptimization optimizer racks layout)) ;;
  ret (OptimizationResult.mk (Solution.racks solution) (Solution.score solution)
         (Solution.metrics solution) layout).

End Enhanced.

(** ** [optimizer.js] *)

Module Basic.

Module Config.
Record t : Type := mk {
  storeWidth : float;
  storeHeight : float;
  counts : RackCounts.t;
  officeConstraint : bool;
  exitConstraint : bool;
  utilityConstraint : bool;
  pillarConstraint : bool
}.
End Config.

Definition rackSpecs (ty : RackType) : RackSpec.t :=
  match ty with
  | standard => RackSpec.mk 1.2 2.4 200 "#4CAF50" None
  | high_density => RackSpec.mk 0.8 3.0 300 "#2196F3" None
  | freezer => RackSpec.mk 1.5 2.0 150 "#00BCD4" None
  | bulk => RackSpec.mk 2.0 1.5 100 "#FF9800" None
  end.

(** The object built by the constructor, with the 2 m grid step of
    [placeRacks] and the [0.2] of [calculateScore].  This engine has no
    genetic strategy: the four genetic fields are never read. *)
Definition optimizer : RackOptimizer.t :=
  RackOptimizer.mk rackSpecs 1.8 0 0 0 0 2.0 0.2.

Definition office : Constraint.t :=
  Constraint.mk "office" (Point.mk 0 0) (Dimensions.mk 4 4) "office" "#9C27B0".
Definition exit : Constraint.t :=
  Constraint.mk "exit" (Point.mk 18 0) (Dimensions.mk 2 2) "exit" "#F44336".
Definition utility : Constraint.t :=
  Constraint.mk "utility" (Point.mk 0 26) (Dimensions.mk 3 4) "utility" "#795548".
Definition pillar1 : Constraint.t :=
  Constraint.mk "pillar1" (Point.mk 10 15) (Dimensions.mk 0.5 0.5) "pillar" "#424242".

Definition entrance : Point.t := Point.mk 19 1.
Definition loadingDock : Point.t := Point.mk 1 29.

Definition getActiveConstraints (config : Config.t) : list Constraint.t :=
  (if Config.officeConstraint config then [office] else [])
  ++ (if Config.exitConstraint config then [exit] else [])
  ++ (if Config.utilityConstraint config then [utility] else [])
  ++ (if Config.pillarConstraint config then [pillar1] else []).

Definition optimizeLayout (config : Config.t) : OptimizationResult.t :=
  let layout :=
    Layout.mk (Config.storeWidth config) (Config.storeHeight config) None
      (getActiveConstraints config) entrance loadingDock in
  let racks := generateRacks optimizer (Config.counts config) in
  let solution := placeRacks optimizer racks layout in
  OptimizationResult.mk (Solution.racks solution) (Solution.score solution)
    (Solution.metrics solution) layout.

End Basic.

(** ** [image-optimizer.js]

    The methods of [ImageLayoutOptimizer] that differ from the engine above:
    distances are taken between positions (not footprint centres), the
    validator has no store-shape test, the workflow score is simplified and
    the grid strategy draws its cells at random. *)

Module Image.

Definition rackSpecs : RackType -> RackSpec.t := Enhanced.rackSpecs.

(** The constructor's fields, with [gridSize = 4] of
    [gridBasedOptimization] and the [0.3] of [calculateScore]. *)
Definition optimizer : RackOptimizer.t :=
  RackOptimizer.mk rackSpecs 2.5 50 100 0.1 5 4 0.3.

Section Methods.

Variable this : RackOptimizer.t.

Definition positionDistance (p q : Point.t) : float :=
  Math_sqrt (Math_pow2 (Point.x p - Point.x q)
             + Math_pow2 (Point.y p - Point.y q)).

Fixpoint hasAdequateAisles (rack : Rack.t) (position : Point.t)
    (otherRacks : list Rack.t) : bool :=
  match otherRacks with
  | [] => true
  | other :: rest =>
      match Rack.position other with
      | None => hasAdequateAisles rack position rest
      | Some otherPosition =>
          let distance := positionDistance position otherPosition in
          let minDistance :=
            RackOptimizer.minAisleWidth this
            + (Rack.width rack + Rack.height rack
               + Rack.width other + Rack.height other) / 4 in
          if distance <? minDistance then false
          else hasAdequateAisles rack position rest
      end
  end.

Definition isValidPlacement (rack : Rack.t) (position : Point.t)
    (layout : Layout.t) (otherRacks : list Rack.t) : bool :=
  if (Point.x position <? 0) || (Point.y position <? 0)
     || gtb (Point.x position + Rack.width rack) (Layout.width layout)
     || gtb (Point.y position + Rack.height rack) (Layout.height layout)
  then false
  else if existsb
            (fun constraint =>
               rectanglesOverlap position (Rack.dimensions rack)
                 (Constraint.position constraint)
                 (Constraint.dimensions constraint))
            (Layout.constraints layout)
  then false
  else if existsb
            (fun other =>
               match Rack.position other with
               | Some otherPosition =>
                   rectanglesOverlap position (Rack.dimensions rack)
                     otherPosition (Rack.dimensions other)
               | None => false
               end)
            otherRacks
  then false
  else hasAdequateAisles rack position otherRacks.

Definition calculateAccessibility (racks : list Rack.t) (layout : Layout.t)
    : float :=
  match racks with
  | [] => 0
  | _ =>
      let maxDistance :=
        Math_sqrt (Layout.width layout * Layout.width layout
                   + Layout.height layout * Layout.height layout) in
      let totalScore :=
        fold_left
          (fun totalScore rack =>
             match Rack.position rack with
             | None => totalScore
             | Some position =>
                 let entranceDistance :=
                   positionDistance position (Layout.entrance layout) in
                 let dockDistance :=
                   positionDistance position (Layout.loadingDock layout) in
                 let entranceScore := 1 - entranceDistance / maxDistance in
                 let dockScore := 1 - dockDistance / maxDistance in
                 totalScore + (entranceScore + dockScore) / 2
             end)
          racks 0 in
      totalScore / float_of_nat (List.length racks)
  end.

Definition calculateWorkflow (racks : list Rack.t) : float :=
  if Nat.ltb (List.length racks) 2 then 1
  else
    let positions :=
      flat_map
        (fun r =>
           match Rack.position r with
           | Some position => [position]
           | None => []
           end)
        racks in
    if Nat.ltb (List.length positions) 2 then 0.5
    else
      let ascending := fun a b : float => a - b in
      let xCoords :=
        sort ascending
          (setOf (map (fun p => Math_round (Point.x p / 4) * 4) positions)) in
      let yCoords :=
        sort ascending
          (setOf (map (fun p => Math_round (Point.y p / 4) * 4) positions)) in
      if Nat.ltb (List.length xCoords) 2 || Nat.ltb (List.length yCoords) 2
      then 0.5
      else 0.8.

Definition calculateScore (racks : list Rack.t) (layout : Layout.t)
    : ScoreResult.t :=
  match racks with
  | [] => ScoreResult.mk 0 0 0 0
  | _ =>
      let layoutArea := Layout.width layout * Layout.height layout in
      let layoutEfficiency := totalRackArea racks / layoutArea in
      let accessibility := calculateAccessibility racks layout in
      let workflow := calculateWorkflow racks in
      let totalScore :=
        layoutEfficiency * 30 + accessibility * 25 + workflow * 25
        + RackOptimizer.densityPlaceholder this * 20 in
      ScoreResult.mk (Math_min 100 (Math_max 0 totalScore))
        layoutEfficiency accessibility workflow
  end.

Definition calculateAverageDistance (racks : list Rack.t) (point : Point.t)
    : float :=
  match racks with
  | [] => 0
  | _ =>
      let distances :=
        map
          (fun rack =>
             match Rack.position rack with
             | None => 0
             | Some position => positionDistance position point
             end)
          racks in
      fold_left (fun sum dist => sum + dist) distances 0
      / float_of_nat (List.length distances)
  end.

Definition calculateMetrics (racks : list Rack.t) (layout : Layout.t)
    (score : ScoreResult.t) : Metrics.t :=
  let totalCapacity :=
    fold_left (fun sum rack => sum + Rack.capacity rack) racks 0 in
  let totalRacks := List.length racks in
  let totalArea := Layout.width layout * Layout.height layout in
  let usedArea := totalRackArea racks in
  Metrics.mk totalRacks totalCapacity
    (calculateAverageDistance racks (Layout.entrance layout))
    (calculateAverageDistance racks (Layout.loadingDock layout))
    (usedArea / totalArea)
    (ScoreResult.layoutEfficiency score) (ScoreResult.accessibility score)
    (ScoreResult.workflow score).

(** The loop [while (!placed && attempts < maxAttempts)] of
    [gridBasedOptimization], [remaining] being [maxAttempts - attempts]:
    each attempt draws a random grid cell. *)
Fixpoint tryRandomCells (remaining : nat) (rack : Rack.t) (layout : Layout.t)
    (placedRacks : list Rack.t) : Rand (option Point.t) :=
  let gridSize := RackOptimizer.gridStep this in
  match remaining with
  | O => ret None
  | S remaining' =>
      rx <- Math_random ;;
      let px :=
        Math_floor (rx * (Layout.width layout - Rack.width rack) / gridSize)
        * gridSize in
      ry <- Math_random ;;
      let py :=
        Math_floor (ry * (Layout.height layout - Rack.height rack) / gridSize)
        * gridSize in
      let position := Point.mk px py in
      if isValidPlacement rack position layout placedRacks
      then ret (Some position)
      else tryRandomCells remaining' rack layout placedRacks
  end.

Fixpoint placeFrom (racks : list Rack.t) (layout : Layout.t)
    (placedRacks : list Rack.t) : Rand (list Rack.t) :=
  match racks with
  | [] => ret placedRacks
  | rack :: rest =>
      found <- tryRandomCells 100 rack layout placedRacks ;;
      match found with
      | Some position =>
          placeFrom rest layout
            (placedRacks ++ [Rack.withPosition rack (Some position)])
      | None => placeFrom rest layout placedRacks
      end
  end.

Definition gridBasedOptimization (racks : list Rack.t) (layout : Layout.t)
    : Rand Solution.t :=
  placedRacks <- placeFrom racks layout [] ;;
  let score := calculateScore placedRacks layout in
  ret (Solution.mk placedRacks (ScoreResult.totalScore score)
         (calculateMetrics placedRacks layout score)).

(** The callback of [individual.map] in [mutate], [rest] being
    [individual] from index [i] on.  One draw decides whether the rack is
    touched; a placed rack that is touched costs two more draws.  The new
    position is validated against the other placed racks of [individual],
    the list the method was called with.  The source tells the racks apart
    by identity ([r !== rack]); the racks of one individual are distinct
    objects, told apart here by their index. *)
Fixpoint mutateFrom (individual : list Rack.t) (layout : Layout.t) (i : nat)
    (rest : list Rack.t) : Rand (list Rack.t) :=
  match rest with
  | [] => ret []
  | rack :: rest' =>
      r <- Math_random ;;
      mutatedRack <-
        match (if r <? RackOptimizer.mutationRate this
               then Rack.position rack else None) with
        | Some position =>
            rx <- Math_random ;;
            let newX :=
              Math_max 0 (Math_min (Layout.width layout - Rack.width rack)
                                   (Point.x position + (rx - 0.5) * 10)) in
            ry <- Math_random ;;
            let newY :=
              Math_max 0 (Math_min (Layout.height layout - Rack.height rack)
                                   (Point.y position + (ry - 0.5) * 10)) in
            let newPosition := Point.mk newX newY in
            let others := otherRacksOf i 0 individual in
            if isValidPlacement rack newPosition layout others
            then ret (Rack.withPosition rack (Some newPosition))
            else ret rack
        | None => ret rack
        end ;;
      mutatedRest <- mutateFrom individual layout (S i) rest' ;;
      ret (mutatedRack :: mutatedRest)
  end.

Definition mutate (individual : list Rack.t) (layout : Layout.t)
    : Rand (list Rack.t) :=
  mutateFrom individual layout 0 individual.

End Methods.

End Image.

(** * Specification vocabulary *)

(** [a] is at least [b]: it is not below [b], which is [b <= a] whenever
    both are numbers (a comparison with [NaN] is always false). *)
Definition atLeast (a b : float) : Prop :=
  (a <? b) = false
  /\ (is_nan a = false -> is_nan b = false -> (b <=? a) = true).

Section ValidatorSpec.

Variable this : RackOptimizer.t.

(** The clearance the validator requires between the candidate [rack] and
    a placed rack: [minAisleWidth + (w + h + w' + h') / 4]. *)
Definition minRequiredDistance (rack placedRack : Rack.t) : float :=
  RackOptimizer.minAisleWidth this
  + (Rack.width rack + Rack.height rack
     + Rack.width placedRack + Rack.height placedRack) / 4.

(** [placedRack] stands too close to [rack] at [position], centre to
    centre. *)
Definition tooCloseByCenters (rack : Rack.t) (position : Point.t)
    (placedRack : Rack.t) : Prop :=
  exists placedPosition,
    Rack.position placedRack = Some placedPosition
    /\ (calculateDistance (rackCenter rack position)
                          (rackCenter placedRack placedPosition)
        <? minRequiredDistance rack placedRack) = true.

(** The same with the distance taken between the two positions. *)
Definition tooCloseByPositions (rack : Rack.t) (position : Point.t)
    (other : Rack.t) : Prop :=
  exists otherPosition,
    Rack.position other = Some otherPosition
    /\ (Image.positionDistance position otherPosition
        <? minRequiredDistance rack other) = true.

(** The aisle-clearance inequality between a candidate [rackA] at [pA] and
    a placed [rackB] at [pB]: the centre-to-centre distance is at least the
    required minimum. *)
Definition aisleClearance (rackA : Rack.t) (pA : Point.t) (rackB : Rack.t)
    (pB : Point.t) : Prop :=
  atLeast
    (calculateDistance (rackCenter rackA pA) (rackCenter rackB pB))
    (minRequiredDistance rackA rackB).

End ValidatorSpec.

(** ** Sample inputs *)

Module Samples.

(** A standard rack (4 x 8) and a bulk rack (6.5 x 5) of the feet-based
    engines, the second one standing at the origin. *)
Definition standardRack : Rack.t := newRack Image.optimizer standard 1.
Definition bulkAtOrigin : Rack.t :=
  Rack.withPosition (newRack Image.optimizer bulk 2) (Some (Point.mk 0 0)).

(** A store of 6 x 6 without obstacles, too low for a standard rack. *)
Definition lowStore : Layout.t :=
  Layout.mk 6 6 None [] (Point.mk 4 2) (Point.mk 2 2).

(** A store of 40 x 30 without obstacles. *)
Definition plainStore : Layout.t :=
  Layout.mk 40 30 None [] (Point.mk 38 2) (Point.mk 2 26).

Definition oneStandard : RackCounts.t := RackCounts.mk 1 0 0 0.

(** Two candidates of length 3 over the same three racks: every rack of the
    first stands at (0, 0), every rack of the second at (12, 12). *)
Definition threeRacks : list Rack.t :=
  generateRacks Enhanced.optimizer (RackCounts.mk 1 1 1 0).
Definition parentOne : list Rack.t :=
  map (fun rack => Rack.withPosition rack (Some (Point.mk 0 0))) threeRacks.
Definition parentTwo : list Rack.t :=
  map (fun rack => Rack.withPosition rack (Some (Point.mk 12 12))) threeRacks.

End Samples.

(** ** Grid invariant *)

(** Every two entries of [l], the earlier one first, are related by [R]. *)
Definition OrderedPairs {A : Type} (R : A -> A -> Prop) (l : list A) : Prop :=
  forall i j a b,
    (i < j)%nat -> nth_error l i = Some a -> nth_error l j = Some b -> R a b.

(** The invariant of the loop over the racks: every pushed rack has a
    position clear of the obstacles, and clear of every rack pushed before
    it, both by footprint and by aisle. *)
Definition clearOfObstacles (layout : Layout.t) (rack : Rack.t) : Prop :=
  exists position,
    Rack.position rack = Some position
    /\ forall constraint, In constraint (Layout.constraints layout) ->
         rectanglesOverlap position (Rack.dimensions rack)
           (Constraint.position constraint) (Constraint.dimensions constraint)
         = false.

Definition clearOfEarlier (this : RackOptimizer.t) (earlier later : Rack.t)
    : Prop :=
  exists pe pl,
    Rack.position earlier = Some pe /\ Rack.position later = Some pl
    /\ rectanglesOverlap pl (Rack.dimensions later) pe (Rack.dimensions earlier)
       = false
    /\ aisleClearance this later pl earlier pe.

Definition gridInvariant (this : RackOptimizer.t) (layout : Layout.t)
    (placedRacks : list Rack.t) : Prop :=
  Forall (clearOfObstacles layout) placedRacks
  /\ OrderedPairs (clearOfEarlier this) placedRacks.

(** ** Fitness *)

(** The fitness of an individual: the total score of its evaluation. *)
Definition fitnessOf (this : RackOptimizer.t) (layout : Layout.t)
    (individual : list Rack.t) : float :=
  Solution.score (evaluateIndividual this individual layout).

(** The best score is the score of the best solution, once there is one. *)
Definition bestCoherent (best : Best) : Prop :=
  match fst best with
  | Some solution => Solution.score solution = snd best
  | None => True
  end.

(** The best score is not below any of the scores [seen]. *)
Definition dominates (best : Best) (seen : list float) : Prop :=
  forall e, In e seen -> (snd best <? e) = false.

(** Every individual of the population is the empty candidate. *)
Definition allEmpty (population : list (list Rack.t)) : Prop :=
  Forall (fun individual => individual = []) population.

(** Every entry of an evaluated population is the empty candidate. *)
Definition allEmptyEvaluated (evaluated : list Evaluated.t) : Prop :=
  Forall (fun entry => Evaluated.individual entry = []) evaluated.

(** A small engine for running the genetic strategy: a population of 4, 2
    generations, 1 elite individual. *)
Definition smallOptimizer : RackOptimizer.t :=
  RackOptimizer.mk Enhanced.rackSpecs 2.5 4 2 0.1 1 4.0 0.3.

(** ** Scores *)

(** The weighted sum of [calculateScore] before clamping, [density] being
    the placeholder constant. *)
Definition weightedSum (density : float) (score : ScoreResult.t) : float :=
  ScoreResult.layoutEfficiency score * 30
  + ScoreResult.accessibility score * 25
  + ScoreResult.workflow score * 25
  + density * 20.

(** [clamp(v, lo, hi)], written [Math.min(hi, Math.max(lo, v))] in the
    source. *)
Definition clamp (v lo hi : float) : float := Math_min hi (Math_max lo v).

(** [v] is never below 0 nor above 100, and lies between them when it is
    a number. *)
Definition within_0_100 (v : float) : Prop :=
  (v <? 0) = false /\ (100 <? v) = false
  /\ (is_nan v = false -> (0 <=? v) = true /\ (v <=? 100) = true).

(** [v] is a number of [[0, 100]]. *)
Definition in_0_100 (v : float) : Prop :=
  (0 <=? v) = true /\ (v <=? 100) = true.

(** ** Degenerate stores *)

Module Degenerate.

(** A store of width 0 and height 30, one standard rack requested. *)
Definition gridConfig : Enhanced.Config.t :=
  Enhanced.Config.mk "rectangular" 0 30 Samples.oneStandard 100 "grid".
Definition geneticConfig : Enhanced.Config.t :=
  Enhanced.Config.mk "rectangular" 0 30 Samples.oneStandard 100 "genetic".
Definition basicConfig : Basic.Config.t :=
  Basic.Config.mk 0 30 Samples.oneStandard true true true true.

(** A store of 40 x 30 for which no rack at all is requested. *)
Definition noRacksConfig : Enhanced.Config.t :=
  Enhanced.Config.mk "rectangular" 40 30 (RackCounts.mk 0 0 0 0) 100 "genetic".

(** Every draw of [Math.random] is 0.5. *)
Definition draws : nat -> float := fun _ => 0.5.

(** A store of 1e155 x 1e155, whose area is beyond the largest double, one
    standard rack requested, for the grid method. *)
Definition hugeConfig : Enhanced.Config.t :=
  Enhanced.Config.mk "rectangular" 1e155 1e155 Samples.oneStandard 100 "grid".

(** Stores without obstacles: one of width 0 (no column of cells), one of
    height 0 and ten columns (no row), one of height 0 and of infinite
    width. *)
Definition noColumnStore : Layout.t :=
  Layout.mk 0 30 None [] (Point.mk 0 0) (Point.mk 0 0).
Definition noRowStore : Layout.t :=
  Layout.mk 40 0 None [] (Point.mk 0 0) (Point.mk 0 0).
Definition endlessStore : Layout.t :=
  Layout.mk infinity 0 None [] (Point.mk 0 0) (Point.mk 0 0).


End Degenerate.

(** ** Generated racks *)

Definition RackType_eqb (a b : RackType) : bool :=
  match a, b with
  | standard, standard | high_density, high_density
  | freezer, freezer | bulk, bulk => true
  | _, _ => false
  end.

(** The types of the racks a configuration asks for, in the order of the
    four loops of [generateRacks]. *)
Definition requestedTypes (config : RackCounts.t) : list RackType :=
  repeat standard (Z.to_nat (RackCounts.standardRacks config))
  ++ repeat high_density (Z.to_nat (RackCounts.highDensityRacks config))
  ++ repeat freezer (Z.to_nat (RackCounts.freezerRacks config))
  ++ repeat bulk (Z.to_nat (RackCounts.bulkRacks config)).

(** Racks of the given types, numbered from [id] on by one counter. *)
Fixpoint numbered (this : RackOptimizer.t) (types : list RackType) (id : nat)
    : list Rack.t :=
  match types with
  | [] => []
  | ty :: rest => newRack this ty id :: numbered this rest (S id)
  end.

(** ** Mutation frame *)

(** What mutation may change of a rack: nothing but the position, and not
    the position of a rack that has none. *)
Definition mutationFrame (before after : Rack.t) : Prop :=
  Rack.id after = Rack.id before
  /\ Rack.type after = Rack.type before
  /\ Rack.width after = Rack.width before
  /\ Rack.height after = Rack.height before
  /\ Rack.capacity after = Rack.capacity before
  /\ Rack.color after = Rack.color before
  /\ Rack.name after = Rack.name before
  /\ (Rack.position before = None -> Rack.position after = None).

(** ** What a strategy returns *)



(** ** Scan order of the grid strategy *)

Section ScanOrder.

Variable this : RackOptimizer.t.

(** The cells the inner loop visits for one [i] when no cell is valid, in
    the order of the visits; [remaining] is [maxAttempts - attempts]. *)
Fixpoint columnCells (gridY i : float) (remaining : nat) (j : float)
    : list Point.t :=
  match remaining with
  | O => []
  | S remaining' =>
      if j <? gridY
      then Point.mk (i * RackOptimizer.gridStep this)
                    (j * RackOptimizer.gridStep this)
           :: columnCells gridY i remaining' (j + 1)
      else []
  end.

(** The cells the two loops visit when no cell is valid: column after
    column, until the attempts are used up. *)
Fixpoint gridCells (gridX gridY : float) (fuel remaining : nat) (i : float)
    : list Point.t :=
  match fuel with
  | O => []
  | S fuel' =>
      if (i <? gridX) && Nat.ltb 0 remaining then
        let column := columnCells gridY i remaining 0 in
        column
        ++ gridCells gridX gridY fuel' (remaining - List.length column) (i + 1)
      else []
  end.

(** The scan order of [placeRacks] in a layout: at most [maxAttempts]
    cells. *)
Definition scanOrder (layout : Layout.t) : list Point.t :=
  gridCells
    (Math_floor (Layout.width layout / RackOptimizer.gridStep this))
    (Math_floor (Layout.height layout / RackOptimizer.gridStep this))
    maxAttempts maxAttempts 0.

End ScanOrder.

(** ** Valid candidates *)

Section CandidateSpec.

Variable this : RackOptimizer.t.
Variable layout : Layout.t.

(** A rack that has a position passes the validator on an empty floor: it
    is within the bounds, inside the store shape and clear of the
    obstacles. *)
Definition standsFree (rack : Rack.t) : Prop :=
  forall position,
    Rack.position rack = Some position ->
    isValidPlacement this rack position layout [] = true.

(** Two racks that both have a position do not overlap and keep the aisle
    clearance, one of them taken as the candidate of the validator. *)
Definition apart (a b : Rack.t) : Prop :=
  forall pa pb,
    Rack.position a = Some pa -> Rack.position b = Some pb ->
    rectanglesOverlap pa (Rack.dimensions a) pb (Rack.dimensions b) = false
    /\ (aisleClearance this a pa b pb \/ aisleClearance this b pb a pa).

(** A candidate in which every placed rack stands free and every two
    placed racks are apart. *)
Definition validCandidate (individual : list Rack.t) : Prop :=
  Forall standsFree individual
  /\ forall i j a b,
       i <> j -> nth_error individual i = Some a ->
       nth_error individual j = Some b -> apart a b.

End CandidateSpec.

(** A rack with its position forgotten. *)
Definition erase (rack : Rack.t) : Rack.t := Rack.withPosition rack None.

(** [individual] holds the racks of [racks], one for one and in the same
    order, whatever their positions. *)
Definition sameRacks (racks individual : list Rack.t) : Prop :=
  map erase individual = map erase racks.

(** A candidate of the genetic strategy for the requested [racks]: the
    same racks, each standing free if it has a position. *)
Definition candidateFor (this : RackOptimizer.t) (layout : Layout.t)
    (racks individual : list Rack.t) : Prop :=
  sameRacks racks individual /\ Forall (standsFree this layout) individual.

(** ** Spacing of the image engine *)

(** In [image-optimizer.js] a later rack keeps clear of an earlier one:
    the footprints do not overlap and the distance between the two
    positions is at least the required minimum. *)
Definition imageClearOfEarlier (this : RackOptimizer.t) (earlier later : Rack.t)
    : Prop :=
  exists pe pl,
    Rack.position earlier = Some pe /\ Rack.position later = Some pl
    /\ rectanglesOverlap pl (Rack.dimensions later) pe (Rack.dimensions earlier)
       = false
    /\ atLeast (Image.positionDistance pl pe)
               (minRequiredDistance this later earlier).

(** ** Offspring *)

(** Gene by gene, [offspring] holds the rack of [parent1] or the rack of
    [parent2] at the same index. *)
Definition pickedFrom (parent1 parent2 offspring : list Rack.t) : Prop :=
  Forall2 (fun gene pair => gene = fst pair \/ gene = snd pair)
          offspring (combine parent1 parent2).

(** The best solution, once there is one, is the evaluation of an
    individual that satisfies [P]. *)
Definition bestFrom (this : RackOptimizer.t) (layout : Layout.t)
    (P : list Rack.t -> Prop) (best : Best) : Prop :=
  forall solution,
    fst best = Some solution ->
    exists individual,
      P individual /\ solution = evaluateIndividual this individual layout.

(** Two racks whose footprints overlap, and a list that holds two such
    racks. *)
Definition overlapping (a b : Rack.t) : Prop :=
  exists pa pb,
    Rack.position a = Some pa /\ Rack.position b = Some pb
    /\ rectanglesOverlap pa (Rack.dimensions a) pb (Rack.dimensions b) = true.

Definition hasOverlap (racks : list Rack.t) : Prop :=
  exists i j a b,
    i <> j /\ nth_error racks i = Some a /\ nth_error racks j = Some b
    /\ overlapping a b.

(** Every evaluated entry holds an individual that satisfies [P]. *)
Definition allFrom (P : list Rack.t -> Prop) (evaluated : list Evaluated.t)
    : Prop :=
  Forall (fun entry => P (Evaluated.individual entry)) evaluated.

Module Crossing.

(** Two standard racks of the enhanced engine in the 40 x 30 store, placed
    in two ways: the first at the origin and the second at (20, 0), and the
    other way round. *)
Definition twoStandard : list Rack.t :=
  generateRacks Enhanced.optimizer (RackCounts.mk 2 0 0 0).

Definition placeAt (racks : list Rack.t) (positions : list Point.t)
    : list Rack.t :=
  map (fun pair => Rack.withPosition (fst pair) (Some (snd pair)))
      (combine racks positions).

Definition leftFirst : list Rack.t :=
  placeAt twoStandard [Point.mk 0 0; Point.mk 20 0].
Definition rightFirst : list Rack.t :=
  placeAt twoStandard [Point.mk 20 0; Point.mk 0 0].

(** Draws that make [mutate] touch every placed rack. *)
Definition eagerDraws : nat -> float := fun _ => 0.05.

(** Draws that run through the twentieths: 0, 7/20, 14/20, 1/20, ... *)
Definition cyclicDraws : nat -> float :=
  fun n => float_of_nat ((7 * n) mod 20) / 20.

(** Two standard racks one below the other, 8.5 ft between their
    positions, and draws that make the mutation of [image-optimizer.js]
    move the first by (4.9, 0) and the second by (4.9, -1.5). *)
Definition stacked : list Rack.t :=
  placeAt (generateRacks Image.optimizer (RackCounts.mk 2 0 0 0))
    [Point.mk 10 10; Point.mk 10 18.5].

Definition slidingDraws : nat -> float :=
  fun n => nth n [0.05; 0.99; 0.5; 0.05; 0.99; 0.35] 0.5.

(** Draws that repeat 0.1, 0.7, 0.8, 0.2. *)
Definition mixedDraws : nat -> float :=
  fun n =>
    match (n mod 4)%nat with
    | 0%nat => 0.1
    | 1%nat => 0.7
    | 2%nat => 0.8
    | _ => 0.2
    end.

End Crossing.

(** An L-shaped store of 40 x 30 with a processing area of 100 sq ft, two
    standard racks and a high-density rack requested, for the grid
    method. *)
Definition lShapedConfig : Enhanced.Config.t :=
  Enhanced.Config.mk "l-shaped" 40 30 (RackCounts.mk 2 1 0 0) 100 "grid".

(** A rack with a position inside the bounds of the layout. *)
Definition insideLayout (layout : Layout.t) (rack : Rack.t) : Prop :=
  exists position,
    Rack.position rack = Some position
    /\ (Point.x position <? 0) = false /\ (Point.y position <? 0) = false
    /\ gtb (Point.x position + Rack.width rack) (Layout.width layout) = false
    /\ gtb (Point.y position + Rack.height rack) (Layout.height layout)
       = false.

(** The invariant of the loop over the racks in [image-optimizer.js]. *)
Definition imageInvariant (this : RackOptimizer.t) (layout : Layout.t)
    (placedRacks : list Rack.t) : Prop :=
  Forall (insideLayout layout) placedRacks
  /\ Forall (clearOfObstacles layout) placedRacks
  /\ OrderedPairs (imageClearOfEarlier this) placedRacks.

(** ** Bounds of a score *)

(** [v] is never below [lo] nor above [hi], and lies between them when it
    is a number. *)
Definition within (lo hi v : float) : Prop :=
  (v <? lo) = false /\ (hi <? v) = false
  /\ (is_nan v = false -> (lo <=? v) = true /\ (v <=? hi) = true).

(** * Properties *)

(** ** Comparisons of JavaScript numbers *)

Lemma SFcompare_refl (s : spec_float) :
  SFcompare s s = Some Eq \/ SFcompare s s = None.
Proof.
  destruct s as [[|]|[|]| |[|] m e]; simpl; auto;
    rewrite Z.compare_refl, Pos.compare_cont_refl; auto.
Qed.

Lemma SFcompare_antisym (a b : spec_float) :
  SFcompare b a = option_map CompOpp (SFcompare a b).
Proof.
  destruct a as [[|]|[|]| |[|] m e], b as [[|]|[|]| |[|] m' e'];
    simpl; try reflexivity.
  - rewrite (Z.compare_antisym e e').
    destruct (e ?= e')%Z; simpl; try reflexivity.
    now rewrite (Pos.compare_cont_antisym m m' Eq).
  - rewrite (Z.compare_antisym e e').
    destruct (e ?= e')%Z; simpl; try reflexivity.
    now rewrite (Pos.compare_cont_antisym m m' Eq).
Qed.

Lemma SFcompare_None (a b : spec_float) :
  SFcompare a b = None -> a = S754_nan \/ b = S754_nan.
Proof.
  destruct a as [[|]|[|]| |[|] m e], b as [[|]|[|]| |[|] m' e'];
    simpl; auto; discriminate.
Qed.

Lemma is_nan_Prim2SF (a : float) : is_nan a = false -> Prim2SF a <> S754_nan.
Proof.
  intros H. unfold Prim2SF. rewrite H.
  destruct (is_zero a); [discriminate|].
  destruct (is_infinity a); [discriminate|].
  destruct (Z.frexp a) as [r e].
  destruct (shr_fexp prec emax (Uint63Axioms.to_Z (normfr_mantissa r))
              (e - prec) loc_Exact) as [shr e'].
  destruct (shr_m shr); discriminate.
Qed.

Lemma ltb_irrefl (a : float) : (a <? a) = false.
Proof.
  rewrite ltb_spec. unfold SFltb.
  destruct (SFcompare_refl (Prim2SF a)) as [H|H]; now rewrite H.
Qed.

(** Two numbers that are [==] are not [<]. *)
Lemma eqb_true_ltb_false (a b : float) : (a =? b) = true -> (a <? b) = false.
Proof.
  rewrite FloatAxioms.eqb_spec, ltb_spec. unfold SFeqb, SFltb.
  destruct (SFcompare (Prim2SF a) (Prim2SF b)) as [[| |]|]; congruence.
Qed.

Lemma ltb_leb (a b : float) : (a <? b) = true -> (a <=? b) = true.
Proof.
  rewrite ltb_spec, leb_spec. unfold SFltb, SFleb.
  destruct (SFcompare (Prim2SF a) (Prim2SF b)) as [[| |]|]; congruence.
Qed.

(** Between two numbers that are not [NaN], "not below" is "at least". *)
Lemma not_ltb_leb (a b : float) :
  is_nan a = false -> is_nan b = false -> (a <? b) = false -> (b <=? a) = true.
Proof.
  intros Ha Hb. apply is_nan_Prim2SF in Ha, Hb.
  rewrite ltb_spec, leb_spec. unfold SFltb, SFleb.
  rewrite (SFcompare_antisym (Prim2SF a) (Prim2SF b)).
  destruct (SFcompare (Prim2SF a) (Prim2SF b)) as [[| |]|] eqn:E;
    simpl; try congruence.
  destruct (SFcompare_None _ _ E); contradiction.
Qed.

Lemma atLeast_intro (a b : float) : (a <? b) = false -> atLeast a b.
Proof. intros H. split; [exact H|]. intros Ha Hb. now apply not_ltb_leb. Qed.

Lemma SFcompare_Lt_trans (a b c : spec_float) :
  SFcompare a b = Some Lt -> SFcompare b c = Some Lt -> SFcompare a c = Some Lt.
Proof.
  destruct a as [[|]|[|]| |[|] m1 e1], b as [[|]|[|]| |[|] m2 e2],
           c as [[|]|[|]| |[|] m3 e3];
    simpl; try discriminate; try reflexivity;
    change (Pos.compare_cont Eq) with Pos.compare;
    destruct (Z.compare_spec e1 e2), (Z.compare_spec e2 e3),
             (Z.compare_spec e1 e3);
    try discriminate; try reflexivity; try lia; subst;
    destruct (Pos.compare_spec m1 m2), (Pos.compare_spec m2 m3),
             (Pos.compare_spec m1 m3);
    simpl; try discriminate; try reflexivity; try lia.
Qed.

Lemma ltb_trans (a b c : float) :
  (a <? b) = true -> (b <? c) = true -> (a <? c) = true.
Proof.
  rewrite !ltb_spec. unfold SFltb.
  destruct (SFcompare (Prim2SF a) (Prim2SF b)) as [[| |]|] eqn:E1;
    try discriminate.
  destruct (SFcompare (Prim2SF b) (Prim2SF c)) as [[| |]|] eqn:E2;
    try discriminate.
  now rewrite (SFcompare_Lt_trans _ _ _ E1 E2).
Qed.

Lemma leb_refl (a : float) : is_nan a = false -> (a <=? a) = true.
Proof. intros H. apply not_ltb_leb; auto using ltb_irrefl. Qed.

Lemma Math_max_cases (a b : float) :
  is_nan a = false -> is_nan b = false ->
  Math_max a b = a \/ Math_max a b = b.
Proof.
  intros Ha Hb. unfold Math_max. rewrite Ha, Hb. simpl.
  destruct (a <? b); auto. destruct (b <? a); auto. destruct (get_sign a); auto.
Qed.

Lemma Math_max_ge_l (a b : float) :
  is_nan a = false -> is_nan b = false -> (a <=? Math_max a b) = true.
Proof.
  intros Ha Hb. unfold Math_max. rewrite Ha, Hb. simpl.
  destruct (a <? b) eqn:E1; [now apply ltb_leb|].
  destruct (b <? a) eqn:E2; [now apply leb_refl|].
  destruct (get_sign a); [now apply not_ltb_leb | now apply leb_refl].
Qed.

Lemma Math_min_cases (a b : float) :
  is_nan a = false -> is_nan b = false ->
  Math_min a b = a \/ Math_min a b = b.
Proof.
  intros Ha Hb. unfold Math_min. rewrite Ha, Hb. simpl.
  destruct (a <? b); auto. destruct (b <? a); auto. destruct (get_sign a); auto.
Qed.

Lemma Math_min_le_l (a b : float) :
  is_nan a = false -> is_nan b = false -> (Math_min a b <=? a) = true.
Proof.
  intros Ha Hb. unfold Math_min. rewrite Ha, Hb. simpl.
  destruct (a <? b) eqn:E1; [now apply leb_refl|].
  destruct (b <? a) eqn:E2; [now apply ltb_leb|].
  destruct (get_sign a); [now apply leb_refl | now apply not_ltb_leb].
Qed.

(** [Math.min(100, Math.max(0, v))] lies in [[0, 100]] unless [v] is
    [NaN]. *)
Lemma clamp_0_100 (v : float) :
  is_nan v = false ->
  (0 <=? Math_min 100 (Math_max 0 v)) = true
  /\ (Math_min 100 (Math_max 0 v) <=? 100) = true.
Proof.
  intros Hv.
  assert (Hm : is_nan (Math_max 0 v) = false).
  { destruct (Math_max_cases 0 v eq_refl Hv) as [E|E]; rewrite E; auto. }
  assert (H0 : (0 <=? Math_max 0 v) = true) by now apply Math_max_ge_l.
  split.
  - destruct (Math_min_cases 100 (Math_max 0 v) eq_refl Hm) as [E|E];
      rewrite E; auto.
  - now apply Math_min_le_l.
Qed.

(** ** Placement validator *)

Section ValidatorFacts.

Variable this : RackOptimizer.t.

Lemma hasAdequateAisles_false_iff rack position placedRacks :
  hasAdequateAisles this rack position placedRacks = false
  <-> Exists (tooCloseByCenters this rack position) placedRacks.
Proof.
  induction placedRacks as [|placedRack rest IH]; simpl.
  - split; [discriminate | intros H; inversion H].
  - destruct (Rack.position placedRack) as [pp|] eqn:Epos.
    + match goal with |- context [if ?c then _ else _] => destruct c eqn:Elt end.
      * split; [intros _ | reflexivity].
        apply Exists_cons_hd. exists pp. split; [exact Epos | exact Elt].
      * rewrite IH. split; [apply Exists_cons_tl|].
        intros H. inversion H as [? ? [pp' [E1 E2]]|]; subst; [|assumption].
        rewrite Epos in E1. injection E1 as <-.
        unfold minRequiredDistance in E2. congruence.
    + rewrite IH. split; [apply Exists_cons_tl|].
      intros H. inversion H as [? ? [pp' [E1 _]]|]; subst; [|assumption].
      congruence.
Qed.

Lemma image_hasAdequateAisles_false_iff rack position otherRacks :
  Image.hasAdequateAisles this rack position otherRacks = false
  <-> Exists (tooCloseByPositions this rack position) otherRacks.
Proof.
  induction otherRacks as [|other rest IH]; simpl.
  - split; [discriminate | intros H; inversion H].
  - destruct (Rack.position other) as [pp|] eqn:Epos.
    + match goal with |- context [if ?c then _ else _] => destruct c eqn:Elt end.
      * split; [intros _ | reflexivity].
        apply Exists_cons_hd. exists pp. split; [exact Epos | exact Elt].
      * rewrite IH. split; [apply Exists_cons_tl|].
        intros H. inversion H as [? ? [pp' [E1 E2]]|]; subst; [|assumption].
        rewrite Epos in E1. injection E1 as <-.
        unfold minRequiredDistance in E2. congruence.
    + rewrite IH. split; [apply Exists_cons_tl|].
      intros H. inversion H as [? ? [pp' [E1 _]]|]; subst; [|assumption].
      congruence.
Qed.

Lemma hasAdequateAisles_filter rack position placedRacks :
  hasAdequateAisles this rack position (filter isPlaced placedRacks)
  = hasAdequateAisles this rack position placedRacks.
Proof.
  induction placedRacks as [|placedRack rest IH]; simpl; [reflexivity|].
  unfold isPlaced at 1.
  destruct (Rack.position placedRack) as [pp|] eqn:Epos; simpl.
  - rewrite Epos, IH. reflexivity.
  - exact IH.
Qed.

End ValidatorFacts.

(** C4 fails on [image-optimizer.js]: there a standard rack at (8.5, 0)
    passes next to a bulk rack at the origin, although their centres are
    nearer than the required minimum, because the distance is taken
    between the two positions. *)
Lemma image_aisles_not_by_centers :
  ~ (Image.hasAdequateAisles Image.optimizer Samples.standardRack
       (Point.mk 8.5 0) [Samples.bulkAtOrigin] = false
     <-> Exists (tooCloseByCenters Image.optimizer Samples.standardRack
                   (Point.mk 8.5 0))
                [Samples.bulkAtOrigin]).
Proof.
  intros [_ H].
  assert (E : Image.hasAdequateAisles Image.optimizer Samples.standardRack
                (Point.mk 8.5 0) [Samples.bulkAtOrigin] = true)
    by (vm_compute; reflexivity).
  rewrite H in E; [discriminate|].
  apply Exists_cons_hd. exists (Point.mk 0 0).
  split; vm_compute; reflexivity.
Qed.

(** C4, amended: in [optimizer.js] and the enhanced engine
    [hasAdequateAisles] returns [false] exactly when some rack of
    [placedRacks] that has a position lies at a centre-to-centre distance
    strictly below [minAisleWidth + (w + h + w' + h') / 4]; in
    [image-optimizer.js] the same holds with the distance taken between the
    two positions.  In both, a distance equal to the required minimum does
    not fail. *)
Theorem hasAdequateAisles_spec (this : RackOptimizer.t) (rack : Rack.t)
    (position : Point.t) (placedRacks : list Rack.t) :
  (hasAdequateAisles this rack position placedRacks = false
   <-> Exists (tooCloseByCenters this rack position) placedRacks)
  /\ (Image.hasAdequateAisles this rack position placedRacks = false
      <-> Exists (tooCloseByPositions this rack position) placedRacks)
  /\ (forall placedRack placedPosition,
        Rack.position placedRack = Some placedPosition ->
        (calculateDistance (rackCenter rack position)
                           (rackCenter placedRack placedPosition)
         =? minRequiredDistance this rack placedRack) = true ->
        ~ tooCloseByCenters this rack position placedRack)
  /\ (forall other otherPosition,
        Rack.position other = Some otherPosition ->
        (Image.positionDistance position otherPosition
         =? minRequiredDistance this rack other) = true ->
        ~ tooCloseByPositions this rack position other).
Proof.
  split; [apply hasAdequateAisles_false_iff|].
  split; [apply image_hasAdequateAisles_false_iff|].
  split.
  - intros placedRack pp Epos Heq [pp' [Epos' Hlt]].
    rewrite Epos in Epos'. injection Epos' as <-.
    apply eqb_true_ltb_false in Heq. congruence.
  - intros other pp Epos Heq [pp' [Epos' Hlt]].
    rewrite Epos in Epos'. injection Epos' as <-.
    apply eqb_true_ltb_false in Heq. congruence.
Qed.

Lemma existsb_filter_isPlaced (f : Rack.t -> bool) (racks : list Rack.t) :
  (forall rack, isPlaced rack = false -> f rack = false) ->
  existsb f (filter isPlaced racks) = existsb f racks.
Proof.
  intros Hf. induction racks as [|rack rest IH]; simpl; [reflexivity|].
  destruct (isPlaced rack) eqn:E; simpl; rewrite IH; [reflexivity|].
  now rewrite (Hf rack E).
Qed.

(** C10: racks without a position impose no constraint on validation; the
    validator answers the same on a rack list and on its sublist of racks
    that have a position. *)
Theorem isValidPlacement_ignores_unplaced (this : RackOptimizer.t)
    (rack : Rack.t) (position : Point.t) (layout : Layout.t)
    (placedRacks : list Rack.t) :
  isValidPlacement this rack position layout placedRacks
  = isValidPlacement this rack position layout (filter isPlaced placedRacks).
Proof.
  unfold isValidPlacement.
  rewrite hasAdequateAisles_filter.
  rewrite existsb_filter_isPlaced; [reflexivity|].
  intros placedRack. unfold isPlaced.
  now destruct (Rack.position placedRack).
Qed.

(** ** Grid placement strategy *)

Lemma rectanglesOverlap_sym (pos1 : Point.t) (dim1 : Dimensions.t)
    (pos2 : Point.t) (dim2 : Dimensions.t) :
  rectanglesOverlap pos1 dim1 pos2 dim2 = rectanglesOverlap pos2 dim2 pos1 dim1.
Proof.
  unfold rectanglesOverlap.
  destruct (Point.x pos1 + Dimensions.width dim1 <=? Point.x pos2),
           (Point.x pos2 + Dimensions.width dim2 <=? Point.x pos1),
           (Point.y pos1 + Dimensions.height dim1 <=? Point.y pos2),
           (Point.y pos2 + Dimensions.height dim2 <=? Point.y pos1);
    reflexivity.
Qed.

Lemma existsb_false_In {A : Type} (f : A -> bool) (l : list A) (a : A) :
  existsb f l = false -> In a l -> f a = false.
Proof.
  intros H Hin. destruct (f a) eqn:E; [|reflexivity].
  assert (existsb f l = true) by (apply existsb_exists; eauto).
  congruence.
Qed.

Lemma fold_left_invariant {A B : Type} (P : A -> Prop) (f : A -> B -> A)
    (l : list B) (init : A) :
  P init -> (forall acc b, P acc -> P (f acc b)) -> P (fold_left f l init).
Proof.
  intros Hinit Hstep. revert init Hinit.
  induction l as [|b rest IH]; simpl; auto.
Qed.

Lemma OrderedPairs_nil {A : Type} (R : A -> A -> Prop) : OrderedPairs R [].
Proof. intros i j a b _ H. destruct i; discriminate. Qed.

Lemma OrderedPairs_snoc {A : Type} (R : A -> A -> Prop) (l : list A) (x : A) :
  OrderedPairs R l -> (forall a, In a l -> R a x) -> OrderedPairs R (l ++ [x]).
Proof.
  intros Hl Hx i j a b Hij Ha Hb.
  assert (Hj : (j < List.length (l ++ [x]))%nat)
    by (apply nth_error_Some; congruence).
  rewrite length_app in Hj. simpl in Hj.
  rewrite nth_error_app1 in Ha by lia.
  destruct (Nat.eq_dec j (List.length l)) as [->|Hne].
  - rewrite nth_error_app2, Nat.sub_diag in Hb by lia.
    injection Hb as <-. eauto using nth_error_In.
  - rewrite nth_error_app1 in Hb by lia. eauto.
Qed.

Section GridFacts.

Variable this : RackOptimizer.t.

(** What a successful validation says about the candidate. *)
Lemma isValidPlacement_true rack position layout placedRacks :
  isValidPlacement this rack position layout placedRacks = true ->
  (forall constraint, In constraint (Layout.constraints layout) ->
     rectanglesOverlap position (Rack.dimensions rack)
       (Constraint.position constraint) (Constraint.dimensions constraint)
     = false)
  /\ (forall placedRack placedPosition, In placedRack placedRacks ->
        Rack.position placedRack = Some placedPosition ->
        rectanglesOverlap position (Rack.dimensions rack) placedPosition
          (Rack.dimensions placedRack) = false
        /\ aisleClearance this rack position placedRack placedPosition).
Proof.
  unfold isValidPlacement.
  destruct (_ || _ || _ || _); [discriminate|].
  destruct (match Layout.storeShape layout with Some _ => _ | None => _ end);
    [discriminate|].
  destruct (existsb _ (Layout.constraints layout)) eqn:Ec; [discriminate|].
  destruct (existsb _ placedRacks) eqn:Ep; [discriminate|].
  intros Ha. split.
  - intros constraint Hin.
    exact (existsb_false_In _ _ _ Ec Hin).
  - intros placedRack pp Hin Epos. split.
    + pose proof (existsb_false_In _ _ _ Ep Hin) as H. simpl in H.
      now rewrite Epos in H.
    + assert (Hlt : (calculateDistance (rackCenter rack position)
                        (rackCenter placedRack pp)
                     <? minRequiredDistance this rack placedRack) = false).
      { match goal with |- ?c = false => destruct c eqn:E end; [|reflexivity].
        assert (hasAdequateAisles this rack position placedRacks = false);
          [|congruence].
        apply hasAdequateAisles_false_iff, Exists_exists.
        exists placedRack. split; [assumption|]. exists pp. auto. }
      now apply atLeast_intro.
Qed.

Lemma scanColumn_valid rack layout placedRacks gridY i remaining j position rest :
  scanColumn this rack layout placedRacks gridY i remaining j
  = (Some position, rest) ->
  isValidPlacement this rack position layout placedRacks = true.
Proof.
  revert j. induction remaining as [|remaining IH]; intros j; simpl;
    [discriminate|].
  destruct (j <? gridY); [|discriminate].
  match goal with |- context [if ?c then _ else _] => destruct c eqn:E end.
  - intros H. injection H as <- _. exact E.
  - apply IH.
Qed.

Lemma scanRows_valid rack layout placedRacks gridX gridY fuel remaining i position :
  scanRows this rack layout placedRacks gridX gridY fuel remaining i
  = Some position ->
  isValidPlacement this rack position layout placedRacks = true.
Proof.
  revert remaining i. induction fuel as [|fuel IH]; intros remaining i; simpl;
    [discriminate|].
  destruct (_ && _); [|discriminate].
  destruct (scanColumn this rack layout placedRacks gridY i remaining 0)
    as [[found|] remaining'] eqn:E.
  - intros H. injection H as <-. eapply scanColumn_valid; eauto.
  - apply IH.
Qed.

Lemma placeRack_invariant layout gridX gridY placedRacks rack :
  gridInvariant this layout placedRacks ->
  gridInvariant this layout (placeRack this layout gridX gridY placedRacks rack).
Proof.
  intros [Hobs Hpairs]. unfold placeRack.
  destruct (scanRows _ _ _ _ _ _ _ _ _) as [position|] eqn:E;
    [|split; assumption].
  apply scanRows_valid, isValidPlacement_true in E. destruct E as [Hc Hp].
  split.
  - apply Forall_app. split; [assumption|].
    constructor; [|constructor]. exists position. split; [reflexivity|exact Hc].
  - apply OrderedPairs_snoc; [assumption|].
    intros earlier Hin.
    rewrite Forall_forall in Hobs. destruct (Hobs earlier Hin) as [pe [Epe _]].
    exists pe, position. split; [exact Epe|]. split; [reflexivity|].
    exact (Hp earlier pe Hin Epe).
Qed.

Lemma placeRacks_invariant racks layout :
  gridInvariant this layout (Solution.racks (placeRacks this racks layout)).
Proof.
  unfold placeRacks, solutionOf. simpl.
  apply fold_left_invariant.
  - split; [constructor | apply OrderedPairs_nil].
  - intros acc rack. apply placeRack_invariant.
Qed.

End GridFacts.

(** C1: in the rack set returned by [placeRacks], every two racks have
    positions and do not overlap, no rack overlaps a fixed obstacle of the
    layout, and the aisle-clearance inequality holds between every two
    racks (the one placed later being the candidate of the validator). *)
Theorem placeRacks_valid (this : RackOptimizer.t) (racks : list Rack.t)
    (layout : Layout.t) :
  let placed := Solution.racks (placeRacks this racks layout) in
  (forall i j a b,
     i <> j -> nth_error placed i = Some a -> nth_error placed j = Some b ->
     exists pa pb,
       Rack.position a = Some pa /\ Rack.position b = Some pb
       /\ rectanglesOverlap pa (Rack.dimensions a) pb (Rack.dimensions b) = false)
  /\ (forall a constraint,
        In a placed -> In constraint (Layout.constraints layout) ->
        exists pa,
          Rack.position a = Some pa
          /\ rectanglesOverlap pa (Rack.dimensions a)
               (Constraint.position constraint)
               (Constraint.dimensions constraint) = false)
  /\ (forall i j a b,
        (i < j)%nat -> nth_error placed i = Some a -> nth_error placed j = Some b ->
        exists pa pb,
          Rack.position a = Some pa /\ Rack.position b = Some pb
          /\ aisleClearance this b pb a pa).
Proof.
  intros placed.
  destruct (placeRacks_invariant this racks layout) as [Hobs Hpairs].
  fold placed in Hobs, Hpairs.
  split; [|split].
  - intros i j a b Hij Ha Hb.
    destruct (Nat.lt_total i j) as [Hlt|[Heq|Hgt]]; [| contradiction |].
    + destruct (Hpairs i j a b Hlt Ha Hb) as [pa [pb [Ea [Eb [Ho _]]]]].
      exists pa, pb. rewrite rectanglesOverlap_sym. auto.
    + destruct (Hpairs j i b a Hgt Hb Ha) as [pb [pa [Eb [Ea [Ho _]]]]].
      exists pa, pb. auto.
  - intros a constraint Ha Hc.
    rewrite Forall_forall in Hobs.
    destruct (Hobs a Ha) as [pa [Ea H]]. exists pa. auto.
  - intros i j a b Hij Ha Hb.
    destruct (Hpairs i j a b Hij Ha Hb) as [pa [pb [Ea [Eb [_ Hc]]]]].
    exists pa, pb. auto.
Qed.

(** ** What the strategies return *)



Section ReturnedRacks.

Variable this : RackOptimizer.t.


Lemma tryRandomPositions_returns remaining rack layout individual src n :
  exists found n',
    tryRandomPositions this remaining rack layout individual src n
    = Some (found, n').
Proof.
  revert n. induction remaining as [|remaining IH]; intros n; simpl.
  - eexists _, _. reflexivity.
  - unfold bind, Math_random.
    destruct (isValidPlacement _ _ _ _ _); [eexists _, _; reflexivity|].
    apply IH.
Qed.


End ReturnedRacks.



(** ** Determinism of the grid strategy *)

Section GridDeterminism.

Variable this : RackOptimizer.t.

Lemma hasAdequateAisles_withPosition rack stale position placedRacks :
  hasAdequateAisles this (Rack.withPosition rack stale) position placedRacks
  = hasAdequateAisles this rack position placedRacks.
Proof.
  induction placedRacks as [|placedRack rest IH]; simpl; [reflexivity|].
  destruct (Rack.position placedRack); [|exact IH].
  unfold rackCenter at 1 3. simpl. now rewrite IH.
Qed.

Lemma isValidPlacement_withPosition rack stale position layout placedRacks :
  isValidPlacement this (Rack.withPosition rack stale) position layout placedRacks
  = isValidPlacement this rack position layout placedRacks.
Proof.
  unfold isValidPlacement. rewrite hasAdequateAisles_withPosition. reflexivity.
Qed.






End GridDeterminism.


(** ** Rack generator *)

Section GeneratorFacts.

Variable this : RackOptimizer.t.

Lemma numbered_app types1 types2 id :
  numbered this (types1 ++ types2) id
  = numbered this types1 id
    ++ numbered this types2 (id + List.length types1).
Proof.
  revert id. induction types1 as [|ty rest IH]; intros id; simpl.
  - now rewrite Nat.add_0_r.
  - rewrite IH. do 3 f_equal. lia.
Qed.

Lemma pushRacks_numbered ty count racks id :
  pushRacks this ty count (racks, id)
  = (racks ++ numbered this (repeat ty count) id, (id + count)%nat).
Proof.
  revert racks id. induction count as [|count IH]; intros racks id; simpl.
  - now rewrite app_nil_r, Nat.add_0_r.
  - rewrite IH, <- app_assoc. simpl. do 2 f_equal. lia.
Qed.

Lemma generateRacks_numbered config :
  generateRacks this config = numbered this (requestedTypes config) 1.
Proof.
  unfold generateRacks, requestedTypes.
  rewrite !pushRacks_numbered. simpl fst.
  rewrite !numbered_app, !repeat_length, <- !app_assoc.
  reflexivity.
Qed.

Lemma numbered_types types id :
  map Rack.type (numbered this types id) = types.
Proof.
  revert id. induction types as [|ty rest IH]; intros id; simpl;
    [reflexivity | now rewrite IH].
Qed.

Lemma numbered_nth types id n rack :
  nth_error (numbered this types id) n = Some rack ->
  rack = newRack this (Rack.type rack) (id + n).
Proof.
  revert id n. induction types as [|ty rest IH]; intros id [|n]; simpl;
    try discriminate.
  - intros H. injection H as <-. now rewrite Nat.add_0_r.
  - intros H. apply IH in H. rewrite H at 1. f_equal. lia.
Qed.

End GeneratorFacts.

(** C7 fails as stated: with one standard and one high-density rack
    requested, the first high-density rack is numbered 2, not 1. *)
Lemma ids_not_numbered_per_type :
  let racks := generateRacks Enhanced.optimizer (RackCounts.mk 1 1 0 0) in
  ~ (forall ty k rack,
       nth_error (filter (fun r => RackType_eqb (Rack.type r) ty) racks) k
       = Some rack ->
       Rack.id rack = (typeName ty ++ "_" ++ decimal (S k))%string).
Proof.
  intros racks H.
  specialize (H high_density 0%nat (newRack Enhanced.optimizer high_density 2)
                eq_refl).
  vm_compute in H. discriminate H.
Qed.

(** C7, amended: [generateRacks] emits the rack types in the fixed order
    standard, high-density, freezer, bulk, exactly the requested count of
    each (none for a count that is not positive), every rack with position
    absent; the ids are numbered by one counter shared by all types, so the
    n-th rack generated overall has id ["{type}_n"] and the numbering of a
    type continues after the racks of the types before it. *)
Theorem generateRacks_spec (this : RackOptimizer.t) (config : RackCounts.t) :
  map Rack.type (generateRacks this config)
  = repeat standard (Z.to_nat (RackCounts.standardRacks config))
    ++ repeat high_density (Z.to_nat (RackCounts.highDensityRacks config))
    ++ repeat freezer (Z.to_nat (RackCounts.freezerRacks config))
    ++ repeat bulk (Z.to_nat (RackCounts.bulkRacks config))
  /\ (forall n rack,
        nth_error (generateRacks this config) n = Some rack ->
        Rack.id rack = (typeName (Rack.type rack) ++ "_" ++ decimal (S n))%string
        /\ Rack.position rack = None
        /\ rack = newRack this (Rack.type rack) (S n)).
Proof.
  rewrite generateRacks_numbered. split; [apply numbered_types|].
  intros n rack H. apply numbered_nth in H. simpl in H.
  split; [|split]; [rewrite H at 1 | rewrite H | exact H]; reflexivity.
Qed.

(** ** Mutation *)

Lemma mutationFrame_refl rack : mutationFrame rack rack.
Proof. repeat split; auto. Qed.

Lemma Forall2_updateAt {A B : Type} (R : A -> B -> Prop) (l : list A)
    (l' : list B) (i : nat) (old new : B) :
  Forall2 R l l' -> nth_error l' i = Some old ->
  (forall a, R a old -> R a new) -> Forall2 R l (updateAt i new l').
Proof.
  intros H. revert i. induction H as [|a b l l' Hab Hl IH]; intros i Hnth Hstep.
  - destruct i; discriminate.
  - destruct i as [|i]; simpl in *.
    + injection Hnth as ->. constructor; auto.
    + constructor; auto.
Qed.

Section MutationFacts.

Variable this : RackOptimizer.t.

Lemma mutateFrom_frame individual layout src count :
  forall i mutated n,
    Forall2 mutationFrame individual mutated ->
    exists result n',
      mutateFrom this count i layout mutated src n = Some (result, n')
      /\ Forall2 mutationFrame individual result.
Proof.
  induction count as [|count IH]; intros i mutated n Hframe; simpl.
  - exists mutated, n. split; [reflexivity | assumption].
  - unfold bind at 1. unfold Math_random at 1.
    destruct (nth_error mutated i) as [rack|] eqn:Enth.
    + destruct (if src n <? RackOptimizer.mutationRate this
                then Rack.position rack else None) as [position|] eqn:Etouch.
      * unfold bind, Math_random.
        destruct (isValidPlacement _ _ _ _ _); [|apply IH; assumption].
        apply IH. eapply Forall2_updateAt; eauto.
        intros a (Hid & Hty & Hw & Hh & Hc & Hcol & Hname & Hpos).
        assert (Hplaced : Rack.position rack = Some position)
          by (destruct (src n <? _); [assumption | discriminate]).
        repeat split; simpl; auto.
        intros Ha. apply Hpos in Ha. congruence.
      * apply IH; assumption.
    + exists mutated, (S n). split; [reflexivity | assumption].
Qed.

End MutationFacts.

(** C9: whatever the draws, the mutation operator returns a list of the
    same length in which every rack keeps its id, type, width, height and
    capacity (and colour and name); only positions may change, and a rack
    without a position is still without one. *)
Theorem mutate_frame (this : RackOptimizer.t) (individual : list Rack.t)
    (layout : Layout.t) (src : nat -> float) (n : nat) :
  exists mutated n',
    mutate this individual layout src n = Some (mutated, n')
    /\ List.length mutated = List.length individual
    /\ Forall2 mutationFrame individual mutated.
Proof.
  destruct (mutateFrom_frame this individual layout src
              (List.length individual) 0 individual n) as [result [n' [E H]]].
  - clear. induction individual; constructor;
      auto using mutationFrame_refl.
  - exists result, n'. split; [exact E|]. split; [|exact H].
    symmetry. eapply Forall2_length; eauto.
Qed.

(** ** Scoring engine *)

Lemma leb_true_ltb_false (a b : float) : (a <=? b) = true -> (b <? a) = false.
Proof.
  rewrite ltb_spec, leb_spec. unfold SFltb, SFleb.
  rewrite (SFcompare_antisym (Prim2SF a) (Prim2SF b)).
  destruct (SFcompare (Prim2SF a) (Prim2SF b)) as [[| |]|]; simpl; congruence.
Qed.

Lemma clamp_within_0_100 (v : float) : within_0_100 (clamp v 0 100).
Proof.
  unfold within_0_100, clamp.
  destruct (is_nan v) eqn:Hv.
  - assert (E : Math_min 100 (Math_max 0 v) = nan).
    { unfold Math_max. rewrite Hv. reflexivity. }
    rewrite E. repeat split; try reflexivity; discriminate.
  - destruct (clamp_0_100 v Hv) as [H0 H100].
    repeat split; auto using leb_true_ltb_false.
Qed.

Lemma is_nan_Prim2SF_nan (a : float) : is_nan a = true -> Prim2SF a = S754_nan.
Proof. intros H. unfold Prim2SF. now rewrite H. Qed.

Lemma leb_true_number (a b : float) : (a <=? b) = true -> is_nan b = false.
Proof.
  rewrite leb_spec. unfold SFleb. intros H.
  destruct (is_nan b) eqn:Hb; [|reflexivity].
  rewrite (is_nan_Prim2SF_nan b Hb) in H.
  now destruct (Prim2SF a) as [[|]|[|]| |[|] m e].
Qed.

(** [Math.min(100, Math.max(0, v))] is [NaN] exactly when [v] is. *)
Lemma clamp_is_nan (v : float) : is_nan (clamp v 0 100) = is_nan v.
Proof.
  unfold clamp. destruct (is_nan v) eqn:Hv.
  - unfold Math_max. rewrite Hv. reflexivity.
  - destruct (clamp_0_100 v Hv) as [H _]. exact (leb_true_number _ _ H).
Qed.

Lemma clamp_in_0_100 (v : float) :
  is_nan v = false -> in_0_100 (clamp v 0 100).
Proof. intros Hv. exact (clamp_0_100 v Hv). Qed.

(** C6 fails where the weighted sum is not a number.  In a store of
    1e155 x 1e155 the grid strategy places the standard rack at (0, 12);
    the longest distance of the layout and the distance of the rack to the
    entrance are both infinite, so the accessibility, Infinity / Infinity,
    is [NaN], and so is the total score of this non-empty rack set, which
    [Math.min] and [Math.max] pass on. *)
Lemma total_score_not_a_number :
  exists result,
    run (Enhanced.optimizeLayout Degenerate.hugeConfig) Degenerate.draws
    = Some result
    /\ map Rack.position (OptimizationResult.racks result)
       = [Some (Point.mk 0 12)]
    /\ OptimizationResult.score result
       = ScoreResult.totalScore
           (calculateScore Enhanced.optimizer
              (OptimizationResult.racks result)
              (OptimizationResult.layout result))
    /\ is_nan (OptimizationResult.score result) = true
    /\ ~ in_0_100 (OptimizationResult.score result).
Proof.
  eexists. split; [vm_compute; reflexivity|].
  split; [reflexivity|]. split; [vm_compute; reflexivity|].
  split; [reflexivity|].
  intros [H _]. vm_compute in H. discriminate H.
Qed.

(** C6, amended: for a non-empty placed-rack set, [totalScore] is the
    weighted sum of the three returned scores and of the density
    placeholder, clamped to [[0, 100]]; the placeholder is a constant of
    the engine (0.2 in [optimizer.js], 0.3 in the enhanced and the image
    engine), not a value computed from the racks.  The total score is
    [NaN] exactly when the weighted sum is, and a number of [[0, 100]]
    otherwise. *)
Theorem calculateScore_total (this : RackOptimizer.t) (racks : list Rack.t)
    (layout : Layout.t) :
  racks <> [] ->
  let density := RackOptimizer.densityPlaceholder this in
  let score := calculateScore this racks layout in
  let imageScore := Image.calculateScore this racks layout in
  ScoreResult.totalScore score = clamp (weightedSum density score) 0 100
  /\ is_nan (ScoreResult.totalScore score)
     = is_nan (weightedSum density score)
  /\ (is_nan (weightedSum density score) = false ->
      in_0_100 (ScoreResult.totalScore score))
  /\ within_0_100 (ScoreResult.totalScore score)
  /\ ScoreResult.totalScore imageScore
     = clamp (weightedSum density imageScore) 0 100
  /\ is_nan (ScoreResult.totalScore imageScore)
     = is_nan (weightedSum density imageScore)
  /\ (is_nan (weightedSum density imageScore) = false ->
      in_0_100 (ScoreResult.totalScore imageScore))
  /\ within_0_100 (ScoreResult.totalScore imageScore)
  /\ RackOptimizer.densityPlaceholder Basic.optimizer = 0.2
  /\ RackOptimizer.densityPlaceholder Enhanced.optimizer = 0.3
  /\ RackOptimizer.densityPlaceholder Image.optimizer = 0.3
  /\ Forall
       (fun engine =>
          (0.2 <=? RackOptimizer.densityPlaceholder engine) = true
          /\ (RackOptimizer.densityPlaceholder engine <=? 0.3) = true)
       [Basic.optimizer; Enhanced.optimizer; Image.optimizer].
Proof.
  intros Hne density score imageScore.
  destruct racks as [|rack rest]; [contradiction|].
  assert (E : ScoreResult.totalScore score = clamp (weightedSum density score) 0 100)
    by reflexivity.
  assert (E' : ScoreResult.totalScore imageScore
               = clamp (weightedSum density imageScore) 0 100) by reflexivity.
  split; [exact E|]. split; [rewrite E; apply clamp_is_nan|].
  split; [rewrite E; apply clamp_in_0_100|].
  split; [rewrite E; apply clamp_within_0_100|].
  split; [exact E'|]. split; [rewrite E'; apply clamp_is_nan|].
  split; [rewrite E'; apply clamp_in_0_100|].
  split; [rewrite E'; apply clamp_within_0_100|].
  repeat split; repeat constructor.
Qed.

(** The theorem applies to one bulk rack at the origin of the 40 x 30
    store, scored by the enhanced engine: its weighted sum is a number, and
    its total score lies in [[0, 100]]. *)
Lemma calculateScore_total_witness :
  [Samples.bulkAtOrigin] <> []
  /\ ScoreResult.totalScore
       (calculateScore Enhanced.optimizer [Samples.bulkAtOrigin]
          Samples.plainStore)
     = clamp
         (weightedSum 0.3
            (calculateScore Enhanced.optimizer [Samples.bulkAtOrigin]
               Samples.plainStore))
         0 100
  /\ in_0_100
       (ScoreResult.totalScore
          (calculateScore Enhanced.optimizer [Samples.bulkAtOrigin]
             Samples.plainStore)).
Proof.
  split; [discriminate|].
  destruct (calculateScore_total Enhanced.optimizer [Samples.bulkAtOrigin]
              Samples.plainStore) as (H1 & _ & H2 & _); [discriminate|].
  split; [exact H1|]. apply H2. vm_compute. reflexivity.
Defined.

(** ** Degenerate stores *)

Section DegenerateGrid.

Variable this : RackOptimizer.t.

(** Without a row of cells no column has a cell, and the scan finds
    nothing. *)
Lemma scanRows_no_columns rack layout placedRacks gridX gridY fuel remaining i :
  (0 <? gridY) = false ->
  scanRows this rack layout placedRacks gridX gridY fuel remaining i = None.
Proof.
  intros Hy. revert remaining i.
  induction fuel as [|fuel IH]; intros remaining i; simpl; [reflexivity|].
  destruct (_ && _); [|reflexivity].
  destruct remaining as [|remaining]; simpl; [apply IH|].
  rewrite Hy. apply IH.
Qed.

Lemma scanColumn_le rack layout placedRacks gridY i remaining j found rest :
  scanColumn this rack layout placedRacks gridY i remaining j = (found, rest) ->
  (rest <= remaining)%nat.
Proof.
  revert j. induction remaining as [|remaining IH]; intros j; simpl.
  - intros H. injection H as _ <-. lia.
  - destruct (j <? gridY).
    + destruct (isValidPlacement _ _ _ _ _).
      * intros H. injection H as _ <-. lia.
      * intros H. apply IH in H. lia.
    + intros H. injection H as _ <-. lia.
Qed.

Lemma scanColumn_remaining rack layout placedRacks gridY i remaining j rest :
  (j <? gridY) = true ->
  scanColumn this rack layout placedRacks gridY i remaining j = (None, rest) ->
  (rest < remaining)%nat \/ remaining = 0%nat.
Proof.
  destruct remaining as [|remaining]; [auto|]. intros Hj. left.
  simpl in H. rewrite Hj in H.
  destruct (isValidPlacement _ _ _ _ _); [discriminate|].
  apply scanColumn_le in H. lia.
Qed.

(** The outcome of the scan does not depend on the fuel, once the fuel
    covers the attempts that remain. *)
Lemma scanRows_fuel rack layout placedRacks gridX gridY fuel1 fuel2 remaining i :
  (remaining <= fuel1)%nat -> (remaining <= fuel2)%nat ->
  scanRows this rack layout placedRacks gridX gridY fuel1 remaining i
  = scanRows this rack layout placedRacks gridX gridY fuel2 remaining i.
Proof.
  destruct (0 <? gridY) eqn:Hy;
    [|intros; now rewrite !scanRows_no_columns].
  revert fuel2 remaining i.
  induction fuel1 as [|fuel1 IH]; intros fuel2 remaining i H1 H2.
  - assert (remaining = 0%nat) as -> by lia.
    destruct fuel2; simpl; [reflexivity|]. now rewrite andb_false_r.
  - destruct fuel2 as [|fuel2].
    + assert (remaining = 0%nat) as -> by lia.
      simpl. now rewrite andb_false_r.
    + simpl. destruct (_ && _) eqn:Hc; [|reflexivity].
      destruct (scanColumn this rack layout placedRacks gridY i remaining 0)
        as [[found|] rest] eqn:E; [reflexivity|].
      apply scanColumn_remaining in E; [|assumption].
      apply andb_prop in Hc. destruct Hc as [_ Hpos].
      apply Nat.ltb_lt in Hpos.
      apply IH; destruct E; lia.
Qed.

(** A grid without rows or without columns leaves every rack unplaced;
    the score and the layout efficiency of the empty set are 0, and the
    area utilization is 0 divided by the layout area. *)
Lemma placeRacks_no_cells racks layout :
  (0 <? Math_floor (Layout.width layout / RackOptimizer.gridStep this)) = false
  \/ (0 <? Math_floor (Layout.height layout / RackOptimizer.gridStep this))
     = false ->
  Solution.racks (placeRacks this racks layout) = []
  /\ Solution.score (placeRacks this racks layout) = 0
  /\ Metrics.layoutEfficiency (Solution.metrics (placeRacks this racks layout))
     = 0
  /\ Metrics.areaUtilization (Solution.metrics (placeRacks this racks layout))
     = 0 / calculateLayoutArea layout.
Proof.
  intros H.
  assert (E : fold_left
                (placeRack this layout
                   (Math_floor (Layout.width layout / RackOptimizer.gridStep this))
                   (Math_floor (Layout.height layout / RackOptimizer.gridStep this)))
                racks [] = []).
  { apply fold_left_invariant; [reflexivity|].
    intros acc rack ->. unfold placeRack.
    destruct H as [Hx|Hy].
    - unfold maxAttempts. simpl. now rewrite Hx.
    - now rewrite scanRows_no_columns. }
  unfold placeRacks. rewrite E. repeat split.
Qed.

(** *** Runs of the grid loops *)

Lemma scanRowsWithin_no_rows rack layout placedRacks gridX gridY fuel :
  (0 <? gridY) = false ->
  forall remaining i found,
    scanRowsWithin this rack layout placedRacks gridX gridY fuel remaining i
    = Some found ->
    found = None.
Proof.
  intros Hy. induction fuel as [|fuel IH]; intros remaining i found; simpl;
    [discriminate|].
  destruct (_ && _); [|intros H; now injection H as <-].
  destruct remaining as [|remaining]; simpl; [apply IH|].
  rewrite Hy. apply IH.
Qed.

(** Whenever the loop ends, [scanRows] gives its outcome. *)
Lemma scanRowsWithin_agrees rack layout placedRacks gridX gridY fuel :
  forall bound remaining i found,
    (remaining <= bound)%nat ->
    scanRowsWithin this rack layout placedRacks gridX gridY fuel remaining i
    = Some found ->
    scanRows this rack layout placedRacks gridX gridY bound remaining i = found.
Proof.
  destruct (0 <? gridY) eqn:Hy.
  - induction fuel as [|fuel IH]; intros bound remaining i found Hle; simpl;
      [discriminate|].
    destruct (_ && _) eqn:Hc.
    + apply andb_prop in Hc. destruct Hc as [Hi Hpos].
      apply Nat.ltb_lt in Hpos.
      destruct bound as [|bound]; [lia|]. simpl. rewrite Hi.
      replace (Nat.ltb 0 remaining) with true
        by (symmetry; now apply Nat.ltb_lt).
      cbn [andb].
      destruct (scanColumn this rack layout placedRacks gridY i remaining 0)
        as [[position|] rest] eqn:E.
      * intros H. now injection H as <-.
      * apply scanColumn_remaining in E; [|assumption].
        apply IH. destruct E; lia.
    + intros H. injection H as <-.
      destruct bound as [|bound]; simpl; [reflexivity|]. now rewrite Hc.
  - intros bound remaining i found _ H.
    rewrite (scanRowsWithin_no_rows _ _ _ _ _ _ Hy _ _ _ H).
    now apply scanRows_no_columns.
Qed.

(** With a row of cells the loop ends before its guard has been tested
    more often than there are attempts left, and once more. *)
Lemma scanRowsWithin_ends rack layout placedRacks gridX gridY fuel :
  (0 <? gridY) = true ->
  forall remaining i,
    (remaining < fuel)%nat ->
    exists found,
      scanRowsWithin this rack layout placedRacks gridX gridY fuel remaining i
      = Some found.
Proof.
  intros Hy. induction fuel as [|fuel IH]; intros remaining i Hlt; [lia|].
  simpl. destruct (_ && _) eqn:Hc; [|eauto].
  apply andb_prop in Hc. destruct Hc as [_ Hpos]. apply Nat.ltb_lt in Hpos.
  destruct (scanColumn this rack layout placedRacks gridY i remaining 0)
    as [[position|] rest] eqn:E; [eauto|].
  apply scanColumn_remaining in E; [|assumption].
  apply IH. destruct E; lia.
Qed.

(** Without a column of cells the loop ends at the first test of its
    guard. *)
Lemma scanRowsWithin_no_columns rack layout placedRacks gridX gridY fuel
    remaining :
  (0 <? gridX) = false ->
  scanRowsWithin this rack layout placedRacks gridX gridY (S fuel) remaining 0
  = Some None.
Proof. intros Hx. simpl. now rewrite Hx. Qed.

Lemma placeAllWithin_agrees layout gridX gridY fuel racks :
  forall placedRacks result,
    placeAllWithin this fuel layout gridX gridY racks placedRacks = Some result ->
    result = fold_left (placeRack this layout gridX gridY) racks placedRacks.
Proof.
  induction racks as [|rack rest IH]; intros placedRacks result;
    cbn [placeAllWithin fold_left].
  - intros H. now injection H as <-.
  - unfold placeRackWithin, placeRack.
    destruct (scanRowsWithin this rack layout placedRacks gridX gridY fuel
                maxAttempts 0) as [found|] eqn:E; [|discriminate].
    rewrite (scanRowsWithin_agrees _ _ _ _ _ _ maxAttempts _ _ _ (le_n _) E).
    destruct found as [position|]; apply IH.
Qed.

Lemma placeAllWithin_ends layout gridX gridY fuel racks :
  (forall rack placedRacks,
     exists found,
       scanRowsWithin this rack layout placedRacks gridX gridY fuel
         maxAttempts 0 = Some found) ->
  forall placedRacks,
    exists result,
      placeAllWithin this fuel layout gridX gridY racks placedRacks
      = Some result.
Proof.
  intros Hends. induction racks as [|rack rest IH]; intros placedRacks;
    cbn [placeAllWithin]; [eauto|].
  unfold placeRackWithin.
  destruct (Hends rack placedRacks) as [found E]. rewrite E.
  destruct found as [position|]; apply IH.
Qed.

Lemma placeRacksWithin_agrees fuel racks layout solution :
  placeRacksWithin this fuel racks layout = Some solution ->
  solution = placeRacks this racks layout.
Proof.
  unfold placeRacksWithin, placeRacks.
  destruct (placeAllWithin _ _ _ _ _ _ _) as [placedRacks|] eqn:E;
    [|discriminate].
  intros H. injection H as <-.
  now rewrite (placeAllWithin_agrees _ _ _ _ _ _ _ E).
Qed.

Lemma placeRacksWithin_ends fuel racks layout :
  (forall rack placedRacks,
     exists found,
       scanRowsWithin this rack layout placedRacks
         (Math_floor (Layout.width layout / RackOptimizer.gridStep this))
         (Math_floor (Layout.height layout / RackOptimizer.gridStep this))
         fuel maxAttempts 0 = Some found) ->
  placeRacksWithin this fuel racks layout
  = Some (placeRacks this racks layout).
Proof.
  intros Hends.
  destruct (placeAllWithin_ends layout _ _ fuel racks Hends [])
    as [result E].
  assert (H : placeRacksWithin this fuel racks layout
              = Some (solutionOf this result layout))
    by (unfold placeRacksWithin; now rewrite E).
  rewrite H. f_equal. now apply (placeRacksWithin_agrees fuel).
Qed.

End DegenerateGrid.

(** X22: [placeRacks] is what the grid loops return.  Whenever the loops
    of the source end, the solution is that of [placeRacks]; and they end,
    within 101 tests of the outer guard for each rack, when the grid has a
    row of cells, when it has no column, or when there is no rack to
    place. *)
Theorem placeRacksWithin_returns (this : RackOptimizer.t)
    (racks : list Rack.t) (layout : Layout.t) :
  let gridX := Math_floor (Layout.width layout / RackOptimizer.gridStep this) in
  let gridY := Math_floor (Layout.height layout / RackOptimizer.gridStep this) in
  (forall fuel solution,
     placeRacksWithin this fuel racks layout = Some solution ->
     solution = placeRacks this racks layout)
  /\ ((0 <? gridY) = true \/ (0 <? gridX) = false \/ racks = [] ->
      forall fuel,
        (maxAttempts < fuel)%nat ->
        placeRacksWithin this fuel racks layout
        = Some (placeRacks this racks layout)).
Proof.
  intros gridX gridY.
  split; [intros fuel solution; apply placeRacksWithin_agrees|].
  intros [Hy|[Hx| ->]] fuel Hfuel.
  - apply placeRacksWithin_ends. intros rack placedRacks.
    now apply scanRowsWithin_ends.
  - apply placeRacksWithin_ends. intros rack placedRacks.
    destruct fuel as [|fuel]; [lia|].
    exists None. now apply scanRowsWithin_no_columns.
  - reflexivity.
Qed.

(** X6: degenerate grids.  Without a column of cells the loops end at the
    first test of their guard and every rack stays unplaced.  Without a
    row of cells the loops try no cell: whenever they end, every rack is
    unplaced.  The score and the layout efficiency of the empty set are 0,
    and the area utilization is 0 divided by the layout area. *)
Theorem placeRacks_degenerate (this : RackOptimizer.t) (racks : list Rack.t)
    (layout : Layout.t) :
  let gridX := Math_floor (Layout.width layout / RackOptimizer.gridStep this) in
  let gridY := Math_floor (Layout.height layout / RackOptimizer.gridStep this) in
  ((0 <? gridX) = false ->
   forall fuel,
     placeRacksWithin this (S fuel) racks layout
     = Some (solutionOf this [] layout))
  /\ ((0 <? gridX) = false \/ (0 <? gridY) = false ->
      forall fuel solution,
        placeRacksWithin this fuel racks layout = Some solution ->
        Solution.racks solution = []
        /\ Solution.score solution = 0
        /\ Metrics.layoutEfficiency (Solution.metrics solution) = 0
        /\ Metrics.areaUtilization (Solution.metrics solution)
           = 0 / calculateLayoutArea layout).
Proof.
  intros gridX gridY. split.
  - intros Hx fuel.
    rewrite (placeRacksWithin_ends this (S fuel) racks layout).
    + f_equal. unfold placeRacks. f_equal.
      apply fold_left_invariant; [reflexivity|].
      intros acc rack ->. unfold placeRack, maxAttempts. simpl.
      fold gridX. now rewrite Hx.
    + intros rack placedRacks. exists None.
      now apply scanRowsWithin_no_columns.
  - intros H fuel solution Hrun.
    rewrite (placeRacksWithin_agrees this fuel racks layout solution Hrun).
    now apply placeRacks_no_cells.
Qed.

(** The theorem applies to the enhanced engine: in the store of width 0 the
    loops end at once, and in the store of height 0 and ten columns they
    end within 11 tests of the outer guard; no rack is placed. *)
Lemma placeRacks_degenerate_witness :
  placeRacksWithin Enhanced.optimizer 1
    (generateRacks Enhanced.optimizer Samples.oneStandard)
    Degenerate.noColumnStore
  = Some (solutionOf Enhanced.optimizer [] Degenerate.noColumnStore)
  /\ match placeRacksWithin Enhanced.optimizer 11
            (generateRacks Enhanced.optimizer Samples.oneStandard)
            Degenerate.noRowStore with
     | Some solution =>
         Solution.racks solution = [] /\ Solution.score solution = 0
     | None => False
     end.
Proof.
  split.
  - apply (placeRacks_degenerate Enhanced.optimizer
             (generateRacks Enhanced.optimizer Samples.oneStandard)
             Degenerate.noColumnStore).
    vm_compute. reflexivity.
  - pose proof (proj2 (placeRacks_degenerate Enhanced.optimizer
                         (generateRacks Enhanced.optimizer Samples.oneStandard)
                         Degenerate.noRowStore)) as H.
    destruct (placeRacksWithin Enhanced.optimizer 11
                (generateRacks Enhanced.optimizer Samples.oneStandard)
                Degenerate.noRowStore) as [solution|] eqn:E.
    + destruct (H (or_intror eq_refl) 11%nat solution E) as (H1 & H2 & _).
      split; assumption.
    + vm_compute in E. discriminate E.
Defined.

(** Scenario: in the store of height 0 and of infinite width the outer loop
    of the first rack has not ended after 1000 tests of its guard. *)
Lemma endless_store_keeps_spinning :
  placeRacksWithin Enhanced.optimizer 1000
    (generateRacks Enhanced.optimizer Samples.oneStandard)
    Degenerate.endlessStore
  = None.
Proof. vm_compute. reflexivity. Qed.



(** C5 holds for [layoutEfficiency] under the grid strategy but not for the
    other metrics, nor under the genetic strategy: in a store of width 0 the
    grid strategy reports [areaUtilization = 0 / 0 = NaN] (enhanced engine
    and [optimizer.js] alike), and the genetic strategy ends with no
    solution, on which [optimizeLayout] throws. *)
Theorem zero_area_store_defects :
  (exists result,
     run (Enhanced.optimizeLayout Degenerate.gridConfig) Degenerate.draws
     = Some result
     /\ OptimizationResult.racks result = []
     /\ Metrics.layoutEfficiency (OptimizationResult.metrics result) = 0
     /\ Metrics.areaUtilization (OptimizationResult.metrics result) = nan)
  /\ Metrics.areaUtilization
       (OptimizationResult.metrics (Basic.optimizeLayout Degenerate.basicConfig))
     = nan
  /\ run (Enhanced.optimizeLayout Degenerate.geneticConfig) Degenerate.draws
     = None.
Proof.
  split; [|split].
  - eexists. split; [vm_compute; reflexivity|]. repeat split.
  - vm_compute. reflexivity.
  - vm_compute. reflexivity.
Qed.

(** ** Genetic strategy *)

Lemma insertSorted_Forall {A : Type} (compare : A -> A -> float)
    (P : A -> Prop) (v : A) (sorted : list A) :
  P v -> Forall P sorted -> Forall P (insertSorted compare v sorted).
Proof.
  intros Hv H. induction H as [|e rest He Hrest IH]; simpl.
  - constructor; auto.
  - destruct (gtb (compare e v) 0); repeat constructor; auto.
Qed.

Lemma sort_Forall {A : Type} (compare : A -> A -> float) (P : A -> Prop)
    (l : list A) :
  Forall P l -> Forall P (sort compare l).
Proof.
  intros H. unfold sort.
  assert (G : forall sorted, Forall P sorted ->
                Forall P (fold_left (fun sorted v => insertSorted compare v sorted)
                            l sorted)).
  { induction H as [|v rest Hv Hrest IH]; intros sorted Hs; simpl; auto.
    apply IH. now apply insertSorted_Forall. }
  apply G. constructor.
Qed.

Lemma element_In {A : Type} (array : list A) (v : float) (a : A) :
  element array v = Some a -> In a array.
Proof.
  unfold element. destruct (index_of v) as [z|]; [|discriminate].
  destruct (z <? Z.of_nat (List.length array))%Z; [|discriminate].
  apply nth_error_In.
Qed.

Section NoRacks.

Variable this : RackOptimizer.t.
Variable layout : Layout.t.

Lemma initializeFrom_nil count :
  forall population src n,
    allEmpty population ->
    exists population',
      initializeFrom this count [] layout population src n
      = Some (population', n)
      /\ allEmpty population'.
Proof.
  induction count as [|count IH]; intros population src n H; simpl.
  - exists population. split; [reflexivity | assumption].
  - unfold bind. simpl. apply IH.
    apply Forall_app. split; [assumption | repeat constructor].
Qed.

Lemma evaluatePopulation_nil population :
  forall evaluated,
    allEmpty population -> allEmptyEvaluated evaluated ->
    exists evaluated',
      fold_left (evaluateOne this layout) population (evaluated, (None, 0))
      = (evaluated', (None, 0))
      /\ allEmptyEvaluated evaluated'.
Proof.
  induction population as [|individual rest IH]; intros evaluated Hp He; simpl.
  - exists evaluated. split; [reflexivity | assumption].
  - inversion Hp as [|? ? Hind Hrest]; subst.
    apply IH; [assumption|].
    apply Forall_app. split; [assumption | repeat constructor].
Qed.

Lemma takeElite_nil count :
  forall i evaluated nextGeneration src n result n',
    allEmptyEvaluated evaluated -> allEmpty nextGeneration ->
    takeElite count i evaluated nextGeneration src n = Some (result, n') ->
    allEmpty result.
Proof.
  induction count as [|count IH];
    intros i evaluated nextGeneration src n result n' He Hn; simpl.
  - unfold ret. intros H. now injection H as <- _.
  - destruct (nth_error evaluated i) as [entry|] eqn:E; [|discriminate].
    apply IH; [assumption|].
    apply Forall_app. split; [assumption|].
    constructor; [|constructor].
    unfold allEmptyEvaluated in He. rewrite Forall_forall in He.
    eauto using nth_error_In.
Qed.

Lemma drawTournament_nil count :
  forall population tournament src n result n',
    allEmptyEvaluated population -> allEmptyEvaluated (defined tournament) ->
    drawTournament count population tournament src n = Some (result, n') ->
    allEmptyEvaluated (defined result).
Proof.
  induction count as [|count IH];
    intros population tournament src n result n' Hp Ht; simpl.
  - unfold ret. intros H. now injection H as <- _.
  - unfold bind, Math_random. apply IH; [assumption|].
    unfold defined. rewrite flat_map_app. apply Forall_app.
    split; [exact Ht|]. simpl.
    destruct (element population _) as [entry|] eqn:E; [|constructor].
    constructor; [|constructor].
    unfold allEmptyEvaluated in Hp. rewrite Forall_forall in Hp.
    eauto using element_In.
Qed.

Lemma tournamentSelection_nil population src n individual n' :
  allEmptyEvaluated population ->
  tournamentSelection population src n = Some (individual, n') ->
  individual = [].
Proof.
  intros Hp. unfold tournamentSelection, bind.
  destruct (drawTournament 3 population [] src n) as [[tournament n1]|] eqn:E;
    [|discriminate].
  apply drawTournament_nil in E; [|assumption|constructor].
  apply (sort_Forall byFitnessDescending) in E.
  destruct (sort byFitnessDescending (defined tournament)) as [|best rest];
    [discriminate|].
  unfold ret. intros H. injection H as <- _.
  now inversion E.
Qed.

Lemma breed_nil count :
  forall evaluated nextGeneration src n result n',
    allEmptyEvaluated evaluated -> allEmpty nextGeneration ->
    breed this count evaluated layout nextGeneration src n = Some (result, n') ->
    allEmpty result.
Proof.
  induction count as [|count IH];
    intros evaluated nextGeneration src n result n' He Hn; simpl.
  - unfold ret. intros H. now injection H as <- _.
  - unfold bind at 1.
    destruct (tournamentSelection evaluated src n) as [[parent1 n1]|] eqn:E1;
      [|discriminate].
    unfold bind at 1.
    destruct (tournamentSelection evaluated src n1) as [[parent2 n2]|] eqn:E2;
      [|discriminate].
    apply tournamentSelection_nil in E1; [|assumption].
    apply tournamentSelection_nil in E2; [|assumption].
    subst parent1 parent2. unfold bind. simpl.
    apply IH; [assumption|].
    apply Forall_app. split; [assumption | repeat constructor].
Qed.

Lemma nextGenerationOf_nil population src n nextGeneration best n' :
  allEmpty population ->
  nextGenerationOf this layout population (None, 0) src n
  = Some ((nextGeneration, best), n') ->
  allEmpty nextGeneration /\ best = (None, 0).
Proof.
  intros Hp. unfold nextGenerationOf, evaluatePopulation.
  destruct (evaluatePopulation_nil population [] Hp) as [evaluated [E He]];
    [constructor|].
  unfold Best in *. rewrite E. unfold bind.
  apply (sort_Forall byFitnessDescending) in He.
  destruct (takeElite _ _ _ _ _ _) as [[elite n1]|] eqn:E1; [|discriminate].
  apply takeElite_nil in E1; [|assumption|constructor].
  destruct (breed _ _ _ _ _ _ _) as [[bred n2]|] eqn:E2; [|discriminate].
  apply breed_nil in E2; [|assumption|assumption].
  unfold ret. intros H. injection H as <- <- _. auto.
Qed.

Lemma evolve_nil generations :
  forall population src n best n',
    allEmpty population ->
    evolve this generations layout population (None, 0) src n = Some (best, n') ->
    best = (None, 0).
Proof.
  induction generations as [|generations IH]; intros population src n best n' Hp;
    simpl.
  - unfold ret. intros H. now injection H as <- _.
  - unfold bind.
    destruct (nextGenerationOf this layout population (None, 0) src n)
      as [[[nextGeneration best1] n1]|] eqn:E; [|discriminate].
    apply nextGenerationOf_nil in E; [|assumption].
    destruct E as [Hn ->]. simpl. now apply IH.
Qed.

(** With no rack requested the genetic strategy returns no candidate,
    whatever the engine, the layout and the draws. *)
Lemma genetic_without_racks src n result n' :
  geneticAlgorithmOptimization this [] layout src n = Some (result, n') ->
  result = None.
Proof.
  unfold geneticAlgorithmOptimization, initializePopulation, bind.
  destruct (initializeFrom_nil (RackOptimizer.populationSize this) [] src n)
    as [population [E Hp]]; [constructor|].
  rewrite E.
  destruct (evolve this (RackOptimizer.generations this) layout population
              (None, 0) src n) as [[best n1]|] eqn:E1; [|discriminate].
  apply evolve_nil in E1; [|assumption]. subst best.
  unfold ret. intros H. now injection H as <- _.
Qed.

End NoRacks.

(** C8 fails where no candidate ever scores above 0: [bestScore] starts at
    0 and is replaced only by a strictly greater score.  With no rack
    requested the strategy never returns a candidate, whatever the engine,
    the layout and the draws; with every draw 0.5 it returns [null], both for
    no rack and for one rack that fits nowhere, and [optimizeLayout] throws
    on it. *)
Theorem genetic_returns_null :
  (forall this layout src n,
     match geneticAlgorithmOptimization this [] layout src n with
     | Some (Some _, _) => False
     | _ => True
     end)
  /\ run (geneticAlgorithmOptimization Enhanced.optimizer [] Samples.plainStore)
         Degenerate.draws
     = Some None
  /\ run (geneticAlgorithmOptimization Enhanced.optimizer
            (generateRacks Enhanced.optimizer Samples.oneStandard)
            Samples.lowStore)
         Degenerate.draws
     = Some None
  /\ run (Enhanced.optimizeLayout Degenerate.noRacksConfig) Degenerate.draws
     = None.
Proof.
  split.
  - intros this layout src n.
    destruct (geneticAlgorithmOptimization this [] layout src n)
      as [[[solution|] n']|] eqn:E; auto.
    apply genetic_without_racks in E. discriminate E.
  - split; [|split]; vm_compute; reflexivity.
Qed.

(** ** Scenarios *)

(** Scenario: in a store of 40 x 30 without obstacles, the grid strategy places the
    one standard rack (4 x 8) at the first cell scanned, (0, 0), and reports
    a layout efficiency of 32 / 1200. *)
Theorem grid_places_first_rack_at_origin :
  let solution :=
    placeRacks Enhanced.optimizer
      (generateRacks Enhanced.optimizer Samples.oneStandard) Samples.plainStore in
  map (fun rack => (Rack.id rack, Rack.position rack)) (Solution.racks solution)
  = [("standard_1"%string, Some (Point.mk 0 0))]
  /\ Metrics.layoutEfficiency (Solution.metrics solution) = 32 / 1200.
Proof. split; vm_compute; reflexivity. Qed.

(** Scenario: scoring an empty placed-rack set gives zero throughout. *)
Theorem calculateScore_empty (this : RackOptimizer.t) (layout : Layout.t) :
  calculateScore this [] layout = ScoreResult.mk 0 0 0 0
  /\ Image.calculateScore this [] layout = ScoreResult.mk 0 0 0 0.
Proof. split; reflexivity. Qed.

(** X3: two rectangles do not overlap exactly when one ends, on some axis,
    where the other begins or before, so touching edges do not overlap; and
    the test does not depend on the order of the two rectangles. *)
Theorem rectanglesOverlap_false_iff (pos1 : Point.t) (dim1 : Dimensions.t)
    (pos2 : Point.t) (dim2 : Dimensions.t) :
  (rectanglesOverlap pos1 dim1 pos2 dim2 = false
   <-> (Point.x pos1 + Dimensions.width dim1 <=? Point.x pos2) = true
       \/ (Point.x pos2 + Dimensions.width dim2 <=? Point.x pos1) = true
       \/ (Point.y pos1 + Dimensions.height dim1 <=? Point.y pos2) = true
       \/ (Point.y pos2 + Dimensions.height dim2 <=? Point.y pos1) = true)
  /\ rectanglesOverlap pos1 dim1 pos2 dim2
     = rectanglesOverlap pos2 dim2 pos1 dim1.
Proof.
  split; [|apply rectanglesOverlap_sym].
  unfold rectanglesOverlap.
  rewrite negb_false_iff, !orb_true_iff. tauto.
Qed.

(** Scenario: crossover of two candidates of length 3 at index 1 (the draw 0.5): the
    offspring has rack 0 of the first parent and racks 1 and 2 of the
    second. *)
Theorem crossover_at_index_one :
  run (crossover Samples.parentOne Samples.parentTwo) Degenerate.draws
  = Some (firstn 1 Samples.parentOne ++ skipn 1 Samples.parentTwo).
Proof. vm_compute. reflexivity. Qed.

Section GeneticFacts.

Variable this : RackOptimizer.t.
Variable layout : Layout.t.

Lemma evaluateOne_best evaluated best individual :
  snd (evaluateOne this layout (evaluated, best) individual)
  = if snd best <? fitnessOf this layout individual
    then (Some (evaluateIndividual this individual layout),
          fitnessOf this layout individual)
    else best.
Proof. destruct best. reflexivity. Qed.

Lemma evaluateOne_dominates evaluated best individual seen :
  dominates best seen ->
  dominates (snd (evaluateOne this layout (evaluated, best) individual))
            (fitnessOf this layout individual :: seen).
Proof.
  rewrite evaluateOne_best. unfold dominates.
  intros Hseen e He.
  destruct (snd best <? fitnessOf this layout individual) eqn:Hlt; simpl.
  - destruct He as [<-|He]; [apply ltb_irrefl|].
    match goal with |- ?c = false => destruct c eqn:H2 end; [|reflexivity].
    rewrite <- (Hseen e He). symmetry. eapply ltb_trans; eauto.
  - destruct He as [<-|He]; auto.
Qed.

Lemma evaluateOne_coherent evaluated best individual :
  bestCoherent best ->
  bestCoherent (snd (evaluateOne this layout (evaluated, best) individual)).
Proof.
  rewrite evaluateOne_best. unfold bestCoherent.
  destruct (snd best <? fitnessOf this layout individual); simpl; auto.
Qed.

Lemma evaluatePopulation_from population evaluated best seen :
  dominates best seen -> bestCoherent best ->
  dominates
    (snd (fold_left (evaluateOne this layout) population (evaluated, best)))
    (map (fitnessOf this layout) population ++ seen)
  /\ bestCoherent
       (snd (fold_left (evaluateOne this layout) population (evaluated, best))).
Proof.
  revert evaluated best seen.
  induction population as [|individual rest IH];
    intros evaluated best seen Hdom Hco; [split; assumption|].
  pose proof (evaluateOne_dominates evaluated best individual seen Hdom) as Hd.
  pose proof (evaluateOne_coherent evaluated best individual Hco) as Hc.
  change (fold_left (evaluateOne this layout) (individual :: rest)
            (evaluated, best))
    with (fold_left (evaluateOne this layout) rest
            (evaluateOne this layout (evaluated, best) individual)).
  destruct (evaluateOne this layout (evaluated, best) individual)
    as [evaluated' best1].
  simpl snd in Hd, Hc.
  destruct (IH evaluated' best1 _ Hd Hc) as [H1 H2].
  split; [|exact H2].
  intros e He. apply H1.
  simpl in He. apply in_or_app.
  destruct He as [<-|He]; [right; now left|].
  apply in_app_or in He. destruct He; [left | right; right]; assumption.
Qed.

Lemma nextGenerationOf_best population best src n nextGeneration best' n' :
  nextGenerationOf this layout population best src n
  = Some ((nextGeneration, best'), n') ->
  best' = snd (evaluatePopulation this layout population best).
Proof.
  unfold nextGenerationOf.
  destruct (evaluatePopulation this layout population best) as [evaluated best1].
  unfold bind.
  destruct (takeElite _ _ _ _ _ _) as [[elite n1]|]; [|discriminate].
  destruct (breed _ _ _ _ _ _ _) as [[bred n2]|]; [|discriminate].
  unfold ret. intros H. now injection H as _ <- _.
Qed.

Lemma evolve_dominates generations :
  forall population best src n final n' seen,
    evolve this generations layout population best src n = Some (final, n') ->
    dominates best seen -> bestCoherent best ->
    dominates final seen /\ bestCoherent final
    /\ (generations <> 0%nat ->
        dominates final (map (fitnessOf this layout) population)).
Proof.
  induction generations as [|generations IH];
    intros population best src n final n' seen; simpl.
  - unfold ret. intros H Hdom Hco. injection H as <- _.
    repeat split; auto. intros Hne. contradiction.
  - unfold bind.
    destruct (nextGenerationOf this layout population best src n)
      as [[[nextGeneration best1] n1]|] eqn:E; [|discriminate].
    simpl. intros Hrun Hdom Hco.
    apply nextGenerationOf_best in E. unfold evaluatePopulation in E.
    destruct (evaluatePopulation_from population [] best seen Hdom Hco)
      as [Hd1 Hc1].
    rewrite <- E in Hd1, Hc1.
    destruct (IH nextGeneration best1 src n1 final n'
                (map (fitnessOf this layout) population ++ seen) Hrun Hd1 Hc1)
      as [Hd [Hc _]].
    split; [|split; [exact Hc|]].
    + intros e He. apply Hd, in_or_app. now right.
    + intros _ e He. apply Hd, in_or_app. now left.
Qed.

End GeneticFacts.

(** X5: whenever the genetic strategy returns a candidate, its fitness is
    at least the fitness of every candidate of the initial population. *)
Theorem genetic_best_dominates_initial (this : RackOptimizer.t)
    (racks : list Rack.t) (layout : Layout.t) (src : nat -> float) (n : nat)
    (solution : Solution.t) (n' : nat) :
  geneticAlgorithmOptimization this racks layout src n
  = Some (Some solution, n') ->
  exists population n1,
    initializePopulation this racks layout src n = Some (population, n1)
    /\ forall individual,
         In individual population ->
         atLeast (Solution.score solution) (fitnessOf this layout individual).
Proof.
  unfold geneticAlgorithmOptimization, bind.
  destruct (initializePopulation this racks layout src n)
    as [[population n1]|]; [|discriminate].
  destruct (evolve this (RackOptimizer.generations this) layout population
              (None, 0) src n1) as [[best n2]|] eqn:E; [|discriminate].
  unfold ret. intros H. injection H as Hbest _.
  exists population, n1. split; [reflexivity|].
  destruct (evolve_dominates this layout _ _ _ _ _ _ _ [] E) as [_ [Hco Hdom]].
  { intros e []. }
  { exact I. }
  unfold bestCoherent in Hco. rewrite Hbest in Hco.
  assert (Hne : RackOptimizer.generations this <> 0%nat).
  { intros H0. rewrite H0 in E. simpl in E. unfold ret in E.
    injection E as <- _. discriminate Hbest. }
  intros individual Hin. apply atLeast_intro. rewrite Hco.
  apply (Hdom Hne). now apply in_map.
Qed.

(** The theorem applies to a run of the small engine on one standard rack
    in the 40 x 30 store, which returns a candidate. *)
Lemma genetic_best_dominates_initial_witness :
  match geneticAlgorithmOptimization smallOptimizer
          (generateRacks smallOptimizer Samples.oneStandard) Samples.plainStore
          Degenerate.draws 0%nat with
  | Some (Some solution, _) =>
      exists population n1,
        initializePopulation smallOptimizer
          (generateRacks smallOptimizer Samples.oneStandard) Samples.plainStore
          Degenerate.draws 0%nat = Some (population, n1)
        /\ forall individual,
             In individual population ->
             atLeast (Solution.score solution)
                     (fitnessOf smallOptimizer Samples.plainStore individual)
  | _ => False
  end.
Proof.
  pose proof (genetic_best_dominates_initial smallOptimizer
                (generateRacks smallOptimizer Samples.oneStandard)
                Samples.plainStore Degenerate.draws 0%nat) as H.
  destruct (geneticAlgorithmOptimization smallOptimizer
              (generateRacks smallOptimizer Samples.oneStandard)
              Samples.plainStore Degenerate.draws 0%nat)
    as [[[solution|] n']|] eqn:E.
  - exact (H solution n' eq_refl).
  - vm_compute in E. discriminate E.
  - vm_compute in E. discriminate E.
Defined.

(** ** First fit of the grid strategy *)

Lemma find_app {A : Type} (f : A -> bool) (l1 l2 : list A) :
  find f (l1 ++ l2)
  = match find f l1 with Some a => Some a | None => find f l2 end.
Proof.
  induction l1 as [|a l1 IH]; simpl; [reflexivity|].
  now destruct (f a).
Qed.

Section FirstFit.

Variable this : RackOptimizer.t.

Lemma columnCells_length gridY i remaining j :
  (List.length (columnCells this gridY i remaining j) <= remaining)%nat.
Proof.
  revert j. induction remaining as [|remaining IH]; intros j; simpl; [lia|].
  destruct (j <? gridY); simpl; [|lia].
  specialize (IH (j + 1)). lia.
Qed.

Lemma gridCells_length gridX gridY fuel remaining i :
  (List.length (gridCells this gridX gridY fuel remaining i) <= remaining)%nat.
Proof.
  revert remaining i. induction fuel as [|fuel IH]; intros remaining i; simpl;
    [lia|].
  destruct (_ && _); simpl; [|lia].
  rewrite length_app.
  pose proof (columnCells_length gridY i remaining 0).
  specialize (IH (remaining - List.length (columnCells this gridY i remaining 0))%nat
                 (i + 1)).
  lia.
Qed.

Lemma scanColumn_find rack layout placedRacks gridY i remaining j :
  fst (scanColumn this rack layout placedRacks gridY i remaining j)
  = find (fun position => isValidPlacement this rack position layout placedRacks)
         (columnCells this gridY i remaining j)
  /\ (fst (scanColumn this rack layout placedRacks gridY i remaining j) = None ->
      snd (scanColumn this rack layout placedRacks gridY i remaining j)
      = (remaining - List.length (columnCells this gridY i remaining j))%nat).
Proof.
  revert j. induction remaining as [|remaining IH]; intros j; simpl; [auto|].
  destruct (j <? gridY); simpl; [|auto].
  destruct (isValidPlacement _ _ _ _ _); simpl; [split; [reflexivity|discriminate]|].
  apply IH.
Qed.

Lemma scanRows_find rack layout placedRacks gridX gridY fuel remaining i :
  scanRows this rack layout placedRacks gridX gridY fuel remaining i
  = find (fun position => isValidPlacement this rack position layout placedRacks)
         (gridCells this gridX gridY fuel remaining i).
Proof.
  revert remaining i. induction fuel as [|fuel IH]; intros remaining i; simpl;
    [reflexivity|].
  destruct (_ && _); [|reflexivity].
  rewrite find_app.
  destruct (scanColumn_find rack layout placedRacks gridY i remaining 0)
    as [Hfst Hsnd].
  destruct (scanColumn this rack layout placedRacks gridY i remaining 0)
    as [[found|] remaining']; simpl in Hfst, Hsnd; rewrite <- Hfst;
    [reflexivity|].
  rewrite (Hsnd eq_refl). apply IH.
Qed.

Lemma placeRack_grows layout gridX gridY racks :
  forall placedRacks,
    exists later,
      fold_left (placeRack this layout gridX gridY) racks placedRacks
      = placedRacks ++ later.
Proof.
  induction racks as [|rack racks IH]; intros placedRacks; cbn [fold_left].
  - exists []. now rewrite app_nil_r.
  - destruct (IH (placeRack this layout gridX gridY placedRacks rack))
      as [later E].
    rewrite E. unfold placeRack.
    destruct (scanRows _ _ _ _ _ _ _ _ _).
    + eexists. rewrite <- app_assoc. reflexivity.
    + now exists later.
Qed.

End FirstFit.

(** X1: first fit.  [placeRacks] visits at most [maxAttempts] cells, column
    after column; the rack added to a rack list is placed at the first
    cell of that scan order which the validator accepts against the racks
    placed so far, and is left out when none is accepted. *)
Theorem placeRacks_first_fit (this : RackOptimizer.t) (racks : list Rack.t)
    (rack : Rack.t) (layout : Layout.t) :
  let placed := Solution.racks (placeRacks this racks layout) in
  (List.length (scanOrder this layout) <= maxAttempts)%nat
  /\ Solution.racks (placeRacks this (racks ++ [rack]) layout)
     = match find (fun position =>
                     isValidPlacement this rack position layout placed)
                  (scanOrder this layout) with
       | Some position => placed ++ [Rack.withPosition rack (Some position)]
       | None => placed
       end.
Proof.
  split; [unfold scanOrder; apply gridCells_length|].
  unfold placeRacks, solutionOf. cbn [Solution.racks].
  rewrite fold_left_app. cbn [fold_left]. unfold placeRack at 1.
  rewrite scanRows_find. unfold scanOrder. reflexivity.
Qed.

(** X21: no backtracking.  The racks placed for a rack list stay where
    they are when more racks follow: the result for [racks1 ++ racks2]
    begins with the result for [racks1]. *)
Theorem placeRacks_never_backtracks (this : RackOptimizer.t)
    (racks1 racks2 : list Rack.t) (layout : Layout.t) :
  exists later,
    Solution.racks (placeRacks this (racks1 ++ racks2) layout)
    = Solution.racks (placeRacks this racks1 layout) ++ later.
Proof.
  unfold placeRacks, solutionOf. cbn [Solution.racks].
  rewrite fold_left_app. apply placeRack_grows.
Qed.

(** ** Identifiers of the generated racks *)

Lemma to_uint_nonnil (n : nat) : Nat.to_uint n <> Decimal.Nil.
Proof.
  pose proof (DecimalNat.Unsigned.to_of (Nat.to_uint n)) as H.
  rewrite DecimalNat.Unsigned.of_to in H. rewrite H.
  apply DecimalFacts.unorm_nonnil.
Qed.

Lemma decimal_inj (n m : nat) : decimal n = decimal m -> n = m.
Proof.
  unfold decimal. intros H. apply DecimalNat.Unsigned.to_uint_inj.
  apply (f_equal NilZero.uint_of_string) in H.
  rewrite !NilZero.usu in H by apply to_uint_nonnil.
  now injection H.
Qed.

Lemma rack_id_inj (ty ty' : RackType) (n n' : nat) :
  (typeName ty ++ "_" ++ decimal n)%string
  = (typeName ty' ++ "_" ++ decimal n')%string ->
  ty = ty' /\ n = n'.
Proof.
  destruct ty, ty'; simpl; intros H; try discriminate H;
    (split; [reflexivity|]); apply decimal_inj; inversion H; reflexivity.
Qed.

Section GeneratorIds.

Variable this : RackOptimizer.t.

Lemma numbered_In types from rack :
  In rack (numbered this types from) ->
  exists ty k, (from <= k)%nat /\ rack = newRack this ty k.
Proof.
  revert from. induction types as [|ty rest IH]; intros from; simpl;
    [contradiction|].
  intros [<-|H].
  - exists ty, from. auto.
  - destruct (IH _ H) as [ty' [k [Hk E]]]. exists ty', k. split; [lia|exact E].
Qed.

Lemma numbered_NoDup types from :
  NoDup (map Rack.id (numbered this types from)).
Proof.
  revert from. induction types as [|ty rest IH]; intros from; simpl;
    constructor; [|apply IH].
  intros Hin. apply in_map_iff in Hin. destruct Hin as [rack [Eid Hin]].
  apply numbered_In in Hin. destruct Hin as [ty' [k [Hk ->]]].
  simpl in Eid. apply rack_id_inj in Eid. lia.
Qed.

Lemma numbered_length types from :
  List.length (numbered this types from) = List.length types.
Proof.
  revert from. induction types as [|ty rest IH]; intros from; simpl;
    [reflexivity | now rewrite IH].
Qed.

End GeneratorIds.

(** X2: the ids of the generated racks are pairwise distinct, and the
    number of racks generated is the sum of the four counts (a count that
    is not positive counting for none). *)
Theorem generateRacks_ids_unique (this : RackOptimizer.t)
    (config : RackCounts.t) :
  NoDup (map Rack.id (generateRacks this config))
  /\ List.length (generateRacks this config)
     = (Z.to_nat (RackCounts.standardRacks config)
        + Z.to_nat (RackCounts.highDensityRacks config)
        + Z.to_nat (RackCounts.freezerRacks config)
        + Z.to_nat (RackCounts.bulkRacks config))%nat.
Proof.
  rewrite generateRacks_numbered. split; [apply numbered_NoDup|].
  rewrite numbered_length. unfold requestedTypes.
  rewrite !length_app, !repeat_length. lia.
Qed.

(** ** Valid candidates *)

Lemma nth_error_updateAt_eq {A : Type} (l : list A) (i : nat) (v old : A) :
  nth_error l i = Some old -> nth_error (updateAt i v l) i = Some v.
Proof.
  revert i. induction l as [|e rest IH]; intros [|i]; simpl;
    try discriminate; auto.
Qed.

Lemma nth_error_updateAt_ne {A : Type} (l : list A) (i j : nat) (v : A) :
  i <> j -> nth_error (updateAt i v l) j = nth_error l j.
Proof.
  revert i j. induction l as [|e rest IH]; intros [|i] [|j] H; simpl;
    try reflexivity; try contradiction.
  apply IH. lia.
Qed.

Lemma Forall_updateAt {A : Type} (P : A -> Prop) (l : list A) (i : nat) (v : A) :
  Forall P l -> P v -> Forall P (updateAt i v l).
Proof.
  intros H Hv. revert i. induction H as [|e rest He Hrest IH]; intros [|i];
    simpl; constructor; auto.
Qed.

Lemma otherRacksOf_In (i : nat) (racks : list Rack.t) :
  forall idx k rack,
    nth_error racks k = Some rack -> (idx + k)%nat <> i ->
    isPlaced rack = true -> In rack (otherRacksOf i idx racks).
Proof.
  induction racks as [|head rest IH]; intros idx [|k] rack; simpl;
    try discriminate.
  - intros H Hne Hp. injection H as ->.
    rewrite Nat.add_0_r in Hne.
    destruct (Nat.eqb_spec idx i); [contradiction|].
    rewrite Hp. simpl. now left.
  - intros H Hne Hp.
    assert (Hin : In rack (otherRacksOf i (S idx) rest))
      by (apply (IH (S idx) k); auto; lia).
    destruct (negb (Nat.eqb idx i) && isPlaced head); [right|]; exact Hin.
Qed.

Section CandidateFacts.

Variable this : RackOptimizer.t.
Variable layout : Layout.t.

(** The validator decides on the rack alone, then on the overlaps, then on
    the aisles. *)
Lemma isValidPlacement_split rack position placedRacks :
  isValidPlacement this rack position layout placedRacks
  = isValidPlacement this rack position layout []
    && negb (existsb
               (fun placedRack =>
                  match Rack.position placedRack with
                  | Some placedPosition =>
                      rectanglesOverlap position (Rack.dimensions rack)
                        placedPosition (Rack.dimensions placedRack)
                  | None => false
                  end)
               placedRacks)
    && hasAdequateAisles this rack position placedRacks.
Proof.
  unfold isValidPlacement.
  destruct (_ || _ || _ || _); [reflexivity|].
  destruct (match Layout.storeShape layout with Some _ => _ | None => _ end);
    [reflexivity|].
  destruct (existsb _ (Layout.constraints layout)); [reflexivity|].
  cbn [existsb hasAdequateAisles].
  now destruct (existsb _ placedRacks).
Qed.

Lemma isValidPlacement_alone rack position placedRacks :
  isValidPlacement this rack position layout placedRacks = true ->
  isValidPlacement this rack position layout [] = true.
Proof.
  rewrite isValidPlacement_split. intros H.
  apply andb_prop in H. destruct H as [H _].
  apply andb_prop in H. now destruct H.
Qed.

Lemma apart_sym a b : apart this a b -> apart this b a.
Proof.
  intros H pb pa Eb Ea. destruct (H pa pb Ea Eb) as [Ho Hc].
  split; [now rewrite rectanglesOverlap_sym | tauto].
Qed.

Lemma validCandidate_nil : validCandidate this layout [].
Proof.
  split; [constructor|]. intros i j a b _ H. destruct i; discriminate.
Qed.

Lemma validCandidate_snoc individual rack :
  validCandidate this layout individual ->
  standsFree this layout rack ->
  (forall a, In a individual -> apart this a rack) ->
  validCandidate this layout (individual ++ [rack]).
Proof.
  intros [Hfree Hpairs] Hrack Hapart. split.
  - apply Forall_app. split; [assumption | repeat constructor; assumption].
  - intros i j a b Hij Ha Hb.
    assert (Hi : (i < List.length (individual ++ [rack]))%nat)
      by (apply nth_error_Some; congruence).
    assert (Hj : (j < List.length (individual ++ [rack]))%nat)
      by (apply nth_error_Some; congruence).
    rewrite length_app in Hi, Hj. simpl in Hi, Hj.
    destruct (Nat.eq_dec i (List.length individual)) as [->|Hi'];
      destruct (Nat.eq_dec j (List.length individual)) as [->|Hj'];
      try contradiction.
    + rewrite nth_error_app2, Nat.sub_diag in Ha by lia. injection Ha as <-.
      rewrite nth_error_app1 in Hb by lia.
      apply apart_sym. eauto using nth_error_In.
    + rewrite nth_error_app2, Nat.sub_diag in Hb by lia. injection Hb as <-.
      rewrite nth_error_app1 in Ha by lia.
      eauto using nth_error_In.
    + rewrite nth_error_app1 in Ha, Hb by lia. eauto.
Qed.

(** A rack accepted by the validator against a valid candidate extends
    it. *)
Lemma validCandidate_accept individual rack position :
  validCandidate this layout individual ->
  isValidPlacement this rack position layout individual = true ->
  validCandidate this layout
    (individual ++ [Rack.withPosition rack (Some position)]).
Proof.
  intros Hvalid Haccept. apply validCandidate_snoc; [assumption| |].
  - intros p Ep. simpl in Ep. injection Ep as <-.
    rewrite isValidPlacement_withPosition.
    eapply isValidPlacement_alone; exact Haccept.
  - intros a Hin pa px Ea Ex. simpl in Ex. injection Ex as <-.
    destruct (isValidPlacement_true this rack position layout individual Haccept)
      as [_ H].
    destruct (H a pa Hin Ea) as [Ho Hc].
    split; [rewrite rectanglesOverlap_sym; exact Ho | right; exact Hc].
Qed.

Lemma validCandidate_unplaced individual rack :
  validCandidate this layout individual ->
  validCandidate this layout (individual ++ [Rack.withPosition rack None]).
Proof.
  intros Hvalid. apply validCandidate_snoc; [assumption| |].
  - intros p Ep. discriminate Ep.
  - intros a _ pa px _ Ex. discriminate Ex.
Qed.

Lemma placeRack_valid gridX gridY placedRacks rack :
  validCandidate this layout placedRacks ->
  validCandidate this layout (placeRack this layout gridX gridY placedRacks rack).
Proof.
  intros H. unfold placeRack.
  destruct (scanRows _ _ _ _ _ _ _ _ _) as [position|] eqn:E; [|assumption].
  apply validCandidate_accept; [assumption|].
  eapply scanRows_valid; eauto.
Qed.

Lemma tryRandomPositions_valid remaining rack individual src n position n' :
  tryRandomPositions this remaining rack layout individual src n
  = Some (Some position, n') ->
  isValidPlacement this rack position layout individual = true.
Proof.
  revert n. induction remaining as [|remaining IH]; intros n; simpl.
  - discriminate.
  - unfold bind, Math_random.
    match goal with |- context [if ?c then _ else _] =>
      destruct c eqn:E; [|apply IH] end.
    unfold ret. intros H. injection H as <- _. exact E.
Qed.

Lemma createFrom_valid cap racks :
  forall individual src n,
    validCandidate this layout individual ->
    exists result n',
      createFrom this cap racks layout individual src n = Some (result, n')
      /\ validCandidate this layout result
      /\ map erase result = map erase individual ++ map erase racks.
Proof.
  induction racks as [|rack racks IH]; intros individual src n Hvalid; simpl.
  - exists individual, n. now rewrite app_nil_r.
  - unfold bind.
    destruct (tryRandomPositions_returns this cap rack layout individual src n)
      as [found [n1 E]].
    rewrite E.
    assert (Hnext : validCandidate this layout
                      (individual ++ [Rack.withPosition rack found])).
    { destruct found as [position|].
      - apply validCandidate_accept; [assumption|].
        eapply tryRandomPositions_valid; eauto.
      - now apply validCandidate_unplaced. }
    destruct (IH _ src n1 Hnext) as [result [n' [E' [Hres Herase]]]].
    exists result, n'. split; [exact E'|]. split; [exact Hres|].
    rewrite Herase, map_app, <- app_assoc. reflexivity.
Qed.

Lemma initializeFrom_valid racks count :
  forall population src n,
    Forall (fun individual =>
              validCandidate this layout individual
              /\ sameRacks racks individual) population ->
    exists result n',
      initializeFrom this count racks layout population src n
      = Some (result, n')
      /\ List.length result = (List.length population + count)%nat
      /\ Forall (fun individual =>
                   validCandidate this layout individual
                   /\ sameRacks racks individual) result.
Proof.
  induction count as [|count IH]; intros population src n H; simpl.
  - exists population, n. split; [reflexivity|]. split; [lia | assumption].
  - unfold bind, createRandomIndividual.
    destruct (createFrom_valid 100 racks [] src n validCandidate_nil)
      as [individual [n1 [E [Hvalid Herase]]]].
    rewrite E.
    destruct (IH (population ++ [individual]) src n1)
      as [result [n' [E' [Hlen Hall]]]].
    { apply Forall_app. split; [assumption|].
      constructor; [split; [exact Hvalid | exact Herase] | constructor]. }
    exists result, n'. split; [exact E'|]. split; [|exact Hall].
    rewrite Hlen, length_app. simpl. lia.
Qed.

Lemma mutateFrom_valid src count :
  forall i mutated n,
    validCandidate this layout mutated ->
    exists result n',
      mutateFrom this count i layout mutated src n = Some (result, n')
      /\ validCandidate this layout result.
Proof.
  induction count as [|count IH]; intros i mutated n Hvalid; simpl.
  - exists mutated, n. split; [reflexivity | assumption].
  - unfold bind at 1. unfold Math_random at 1.
    destruct (nth_error mutated i) as [rack|] eqn:Enth;
      [|exists mutated, (S n); split; [reflexivity | assumption]].
    destruct (if src n <? RackOptimizer.mutationRate this
              then Rack.position rack else None) as [position|];
      [|apply IH; assumption].
    unfold bind, Math_random.
    match goal with |- context [isValidPlacement this rack ?p layout ?o] =>
      destruct (isValidPlacement this rack p layout o) eqn:Eacc;
      [remember p as newPosition | apply IH; assumption] end.
    apply IH. destruct Hvalid as [Hfree Hpairs].
    assert (Hnew : forall b k pb,
               nth_error mutated k = Some b -> k <> i ->
               Rack.position b = Some pb ->
               apart this (Rack.withPosition rack (Some newPosition)) b).
    { intros b k pb Hb Hk Epb pa pb' Ea Eb. simpl in Ea. injection Ea as <-.
      destruct (isValidPlacement_true this rack newPosition layout _ Eacc)
        as [_ H].
      destruct (H b pb') as [Ho Hc]; [|exact Eb|split; [exact Ho | left; exact Hc]].
      apply (otherRacksOf_In i mutated 0 k); auto.
      unfold isPlaced. now rewrite Eb. }
    split.
    + apply Forall_updateAt; [assumption|].
      intros p Ep. simpl in Ep. injection Ep as <-.
      rewrite isValidPlacement_withPosition.
      eapply isValidPlacement_alone; eauto.
    + intros j k a b Hjk Ha Hb.
      destruct (Nat.eq_dec j i) as [->|Hj]; destruct (Nat.eq_dec k i) as [->|Hk];
        try contradiction.
      * rewrite (nth_error_updateAt_eq _ _ _ _ Enth) in Ha. injection Ha as <-.
        rewrite nth_error_updateAt_ne in Hb by auto.
        intros pa pb Ea Eb. eapply Hnew; eauto.
      * rewrite (nth_error_updateAt_eq _ _ _ _ Enth) in Hb. injection Hb as <-.
        rewrite nth_error_updateAt_ne in Ha by auto.
        apply apart_sym. intros pb pa Eb Ea. eapply Hnew; eauto.
      * rewrite nth_error_updateAt_ne in Ha, Hb by auto. eauto.
Qed.

End CandidateFacts.

(** What the validator says about a rack on its own. *)
Lemma isValidPlacement_alone_facts (this : RackOptimizer.t) (rack : Rack.t)
    (position : Point.t) (layout : Layout.t) :
  isValidPlacement this rack position layout [] = true ->
  ((Point.x position <? 0) = false /\ (Point.y position <? 0) = false
   /\ gtb (Point.x position + Rack.width rack) (Layout.width layout) = false
   /\ gtb (Point.y position + Rack.height rack) (Layout.height layout)
      = false)
  /\ (forall storeShape,
        Layout.storeShape layout = Some storeShape ->
        isRackInStoreShape rack position storeShape = true)
  /\ (forall constraint, In constraint (Layout.constraints layout) ->
        rectanglesOverlap position (Rack.dimensions rack)
          (Constraint.position constraint) (Constraint.dimensions constraint)
        = false).
Proof.
  intros H.
  destruct (isValidPlacement_true this rack position layout [] H) as [Hc _].
  unfold isValidPlacement in H.
  destruct (Point.x position <? 0) eqn:E1; [discriminate|].
  destruct (Point.y position <? 0) eqn:E2; [discriminate|].
  destruct (gtb (Point.x position + Rack.width rack) (Layout.width layout))
    eqn:E3; [discriminate|].
  destruct (gtb (Point.y position + Rack.height rack) (Layout.height layout))
    eqn:E4; [discriminate|].
  cbn [orb] in H. split; [|split; [|exact Hc]].
  - repeat split; reflexivity.
  - intros storeShape E. rewrite E in H.
    now destruct (isRackInStoreShape rack position storeShape).
Qed.

Lemma placeRacks_validCandidate (this : RackOptimizer.t) (racks : list Rack.t)
    (layout : Layout.t) :
  validCandidate this layout (Solution.racks (placeRacks this racks layout)).
Proof.
  unfold placeRacks, solutionOf. cbn [Solution.racks].
  apply fold_left_invariant; [apply validCandidate_nil|].
  intros acc rack. apply placeRack_valid.
Qed.

Lemma placeRacks_all_placed (this : RackOptimizer.t) (racks : list Rack.t)
    (layout : Layout.t) (rack : Rack.t) :
  In rack (Solution.racks (placeRacks this racks layout)) ->
  exists position, Rack.position rack = Some position.
Proof.
  intros Hin.
  destruct (placeRacks_invariant this racks layout) as [Hobs _].
  rewrite Forall_forall in Hobs.
  destruct (Hobs rack Hin) as [position [E _]]. eauto.
Qed.

(** X16: every rack returned by [placeRacks] has a position and passes the
    validator on its own, that is, it lies within the bounds of the layout,
    has its four corners inside the store shape when the layout has one,
    and overlaps no obstacle; and every two returned racks are apart. *)
Theorem placeRacks_valid_candidate (this : RackOptimizer.t)
    (racks : list Rack.t) (layout : Layout.t) :
  validCandidate this layout (Solution.racks (placeRacks this racks layout))
  /\ Forall
       (fun rack =>
          exists position,
            Rack.position rack = Some position
            /\ insideLayout layout rack
            /\ forall storeShape,
                 Layout.storeShape layout = Some storeShape ->
                 isRackInStoreShape rack position storeShape = true)
       (Solution.racks (placeRacks this racks layout)).
Proof.
  pose proof (placeRacks_validCandidate this racks layout) as H.
  split; [exact H|].
  apply Forall_forall. intros rack Hin.
  destruct (placeRacks_all_placed this racks layout rack Hin) as [position E].
  destruct H as [Hfree _]. rewrite Forall_forall in Hfree.
  destruct (isValidPlacement_alone_facts this rack position layout
              (Hfree rack Hin position E)) as [Hb [Hs _]].
  exists position. split; [exact E|]. split; [|exact Hs].
  exists position. split; [exact E | exact Hb].
Qed.

(** X8: whatever the draws, the initial population of the genetic strategy
    consists of [populationSize] valid candidates, each holding the
    requested racks in order. *)
Theorem initializePopulation_valid (this : RackOptimizer.t)
    (racks : list Rack.t) (layout : Layout.t) (src : nat -> float) (n : nat) :
  exists population n',
    initializePopulation this racks layout src n = Some (population, n')
    /\ List.length population = RackOptimizer.populationSize this
    /\ Forall (fun individual =>
                 validCandidate this layout individual
                 /\ sameRacks racks individual) population.
Proof.
  destruct (initializeFrom_valid this layout racks
              (RackOptimizer.populationSize this) [] src n)
    as [population [n' [E [Hlen H]]]]; [constructor|].
  exists population, n'. auto.
Qed.

(** ** Crossover *)

Lemma pickedFrom_erase (parent1 : list Rack.t) :
  forall parent2 offspring,
    pickedFrom parent1 parent2 offspring ->
    map erase parent1 = map erase parent2 ->
    map erase offspring = map erase parent1.
Proof.
  unfold pickedFrom.
  induction parent1 as [|g1 r1 IH]; intros parent2 offspring H E.
  - inversion H. reflexivity.
  - destruct parent2 as [|g2 r2]; [discriminate E|].
    simpl in H. inversion H as [|g pair o' rest Hg Hrest]; subst.
    cbn [map] in *.
    assert (Eg : erase g1 = erase g2) by congruence.
    assert (Er : map erase r1 = map erase r2) by congruence.
    f_equal; [|eauto].
    destruct Hg as [Hg|Hg]; cbn [fst snd] in Hg; subst g; congruence.
Qed.

Lemma pickedFrom_Forall (Q : Rack.t -> Prop) (parent1 : list Rack.t) :
  forall parent2 offspring,
    pickedFrom parent1 parent2 offspring ->
    Forall Q parent1 -> Forall Q parent2 -> Forall Q offspring.
Proof.
  unfold pickedFrom.
  induction parent1 as [|g1 r1 IH]; intros parent2 offspring H H1 H2.
  - inversion H. constructor.
  - destruct parent2 as [|g2 r2]; [inversion H; constructor|].
    simpl in H. inversion H as [|g pair o' rest Hg Hrest]; subst.
    inversion H1; inversion H2; subst.
    constructor; [|eauto].
    destruct Hg as [Hg|Hg]; simpl in Hg; subst g; assumption.
Qed.

Lemma pickedFrom_length (parent1 parent2 offspring : list Rack.t) :
  List.length parent2 = List.length parent1 ->
  pickedFrom parent1 parent2 offspring ->
  List.length offspring = List.length parent1.
Proof.
  intros E H. apply Forall2_length in H.
  rewrite H, length_combine, E. apply Nat.min_id.
Qed.

Lemma crossFrom_picks (crossoverPoint : float) (src : nat -> float) (n : nat)
    (rest1 : list Rack.t) :
  forall rest2 prefix2 offspring,
    List.length rest2 = List.length rest1 ->
    exists genes,
      crossFrom crossoverPoint (List.length prefix2) rest1 (prefix2 ++ rest2)
        offspring src n
      = Some (offspring ++ genes, n)
      /\ pickedFrom rest1 rest2 genes.
Proof.
  induction rest1 as [|g1 r1 IH]; intros [|g2 r2] prefix2 offspring E;
    try discriminate E.
  - exists []. rewrite !app_nil_r. split; [reflexivity | constructor].
  - injection E as E. cbn [crossFrom].
    assert (Hnth : nth_error (prefix2 ++ g2 :: r2) (List.length prefix2)
                   = Some g2)
      by (rewrite nth_error_app2, Nat.sub_diag by lia; reflexivity).
    rewrite Hnth.
    assert (Hstep : forall gene,
               exists genes,
                 crossFrom crossoverPoint (S (List.length prefix2)) r1
                   (prefix2 ++ g2 :: r2) (offspring ++ [gene]) src n
                 = Some (offspring ++ gene :: genes, n)
                 /\ pickedFrom r1 r2 genes).
    { intros gene.
      destruct (IH r2 (prefix2 ++ [g2]) (offspring ++ [gene]) E)
        as [genes [Hrun Hpick]].
      exists genes. split; [|exact Hpick].
      rewrite length_app, Nat.add_1_r, <- !app_assoc in Hrun. exact Hrun. }
    destruct (float_of_nat (List.length prefix2) <? crossoverPoint).
    + destruct (Hstep g1) as [genes [Hrun Hpick]].
      exists (g1 :: genes). split; [exact Hrun|].
      constructor; [left; reflexivity | exact Hpick].
    + destruct (Hstep g2) as [genes [Hrun Hpick]].
      exists (g2 :: genes). split; [exact Hrun|].
      constructor; [right; reflexivity | exact Hpick].
Qed.

Lemma crossover_picks (parent1 parent2 : list Rack.t) (src : nat -> float)
    (n : nat) :
  List.length parent2 = List.length parent1 ->
  exists offspring,
    crossover parent1 parent2 src n = Some (offspring, S n)
    /\ pickedFrom parent1 parent2 offspring.
Proof.
  intros E. unfold crossover, bind, Math_random.
  exact (crossFrom_picks _ src (S n) parent1 parent2 [] [] E).
Qed.

(** X4: for parents of the same length, whatever the draws, [crossover]
    returns after one draw an offspring of that length which holds, gene by
    gene, the rack of the first or of the second parent at the same index;
    so when both parents hold the same racks in the same order, so does the
    offspring. *)
Theorem crossover_picks_genes (parent1 parent2 : list Rack.t)
    (src : nat -> float) (n : nat) :
  List.length parent2 = List.length parent1 ->
  exists offspring,
    crossover parent1 parent2 src n = Some (offspring, S n)
    /\ List.length offspring = List.length parent1
    /\ pickedFrom parent1 parent2 offspring
    /\ (sameRacks parent1 parent2 -> sameRacks parent1 offspring).
Proof.
  intros E. destruct (crossover_picks parent1 parent2 src n E)
    as [offspring [Hrun Hpick]].
  exists offspring. split; [exact Hrun|].
  split; [eapply pickedFrom_length; eauto|].
  split; [exact Hpick|].
  intros Hsame. unfold sameRacks in *.
  eapply pickedFrom_erase; eauto.
Qed.

(** The theorem applies to the two sample parents of three racks. *)
Lemma crossover_picks_genes_witness :
  exists offspring,
    crossover Samples.parentOne Samples.parentTwo Degenerate.draws 0%nat
    = Some (offspring, 1%nat)
    /\ List.length offspring = List.length Samples.parentOne
    /\ pickedFrom Samples.parentOne Samples.parentTwo offspring
    /\ (sameRacks Samples.parentOne Samples.parentTwo ->
        sameRacks Samples.parentOne offspring).
Proof.
  apply (crossover_picks_genes Samples.parentOne Samples.parentTwo
           Degenerate.draws 0%nat).
  reflexivity.
Defined.

(** ** Candidates of the genetic strategy *)

Lemma mutationFrame_erase (before after : Rack.t) :
  mutationFrame before after -> erase after = erase before.
Proof.
  destruct before, after. unfold mutationFrame, erase, Rack.withPosition.
  cbn. intros (-> & -> & -> & -> & -> & -> & -> & _). reflexivity.
Qed.

Lemma Forall2_mutationFrame_erase (individual mutated : list Rack.t) :
  Forall2 mutationFrame individual mutated ->
  map erase mutated = map erase individual.
Proof.
  induction 1 as [|a b l l' Hab Hrest IH]; cbn [map]; [reflexivity|].
  f_equal; [now apply mutationFrame_erase | exact IH].
Qed.

Lemma Forall2_mutationFrame_refl (individual : list Rack.t) :
  Forall2 mutationFrame individual individual.
Proof. induction individual; constructor; auto using mutationFrame_refl. Qed.

Section GeneticCandidates.

Variable this : RackOptimizer.t.
Variable layout : Layout.t.

Lemma mutateFrom_standsFree src count :
  forall i mutated n,
    Forall (standsFree this layout) mutated ->
    exists result n',
      mutateFrom this count i layout mutated src n = Some (result, n')
      /\ Forall (standsFree this layout) result.
Proof.
  induction count as [|count IH]; intros i mutated n Hfree; simpl.
  - exists mutated, n. split; [reflexivity | assumption].
  - unfold bind at 1. unfold Math_random at 1.
    destruct (nth_error mutated i) as [rack|] eqn:Enth;
      [|exists mutated, (S n); split; [reflexivity | assumption]].
    destruct (if src n <? RackOptimizer.mutationRate this
              then Rack.position rack else None) as [position|];
      [|apply IH; assumption].
    unfold bind, Math_random.
    match goal with |- context [isValidPlacement this rack ?p layout ?o] =>
      destruct (isValidPlacement this rack p layout o) eqn:Eacc;
      [remember p as newPosition | apply IH; assumption] end.
    apply IH. apply Forall_updateAt; [assumption|].
    intros p Ep. simpl in Ep. injection Ep as <-.
    rewrite isValidPlacement_withPosition.
    eapply isValidPlacement_alone; eauto.
Qed.

Lemma mutate_candidate racks individual src n mutated n' :
  candidateFor this layout racks individual ->
  mutate this individual layout src n = Some (mutated, n') ->
  candidateFor this layout racks mutated.
Proof.
  intros [Hsame Hfree] H. unfold mutate in H. split.
  - destruct (mutateFrom_frame this individual layout src
                (List.length individual) 0 individual n
                (Forall2_mutationFrame_refl individual))
      as [result [n1 [E Hframe]]].
    rewrite E in H. injection H as <- _.
    unfold sameRacks. rewrite (Forall2_mutationFrame_erase _ _ Hframe).
    exact Hsame.
  - destruct (mutateFrom_standsFree src (List.length individual) 0 individual
                n Hfree) as [result [n1 [E Hres]]].
    rewrite E in H. injection H as <- _. exact Hres.
Qed.

Lemma crossover_candidate racks parent1 parent2 src n offspring n' :
  candidateFor this layout racks parent1 ->
  candidateFor this layout racks parent2 ->
  crossover parent1 parent2 src n = Some (offspring, n') ->
  candidateFor this layout racks offspring.
Proof.
  intros [S1 F1] [S2 F2] H. unfold sameRacks in *.
  assert (E : List.length parent2 = List.length parent1).
  { rewrite <- (length_map erase parent2), <- (length_map erase parent1).
    congruence. }
  destruct (crossover_picks parent1 parent2 src n E) as [result [Hrun Hpick]].
  rewrite Hrun in H. injection H as <- _. split.
  - unfold sameRacks. rewrite (pickedFrom_erase _ _ _ Hpick); congruence.
  - eapply pickedFrom_Forall; eauto.
Qed.

End GeneticCandidates.

Section GeneticInvariant.

Variable this : RackOptimizer.t.
Variable layout : Layout.t.
Variable P : list Rack.t -> Prop.

Hypothesis crossover_keeps :
  forall parent1 parent2 src n offspring n',
    P parent1 -> P parent2 ->
    crossover parent1 parent2 src n = Some (offspring, n') -> P offspring.

Hypothesis mutate_keeps :
  forall individual src n mutated n',
    P individual ->
    mutate this individual layout src n = Some (mutated, n') -> P mutated.

Lemma evaluatePopulation_keeps population :
  forall evaluated best,
    Forall P population -> allFrom P evaluated ->
    bestFrom this layout P best ->
    allFrom P (fst (fold_left (evaluateOne this layout) population
                      (evaluated, best)))
    /\ bestFrom this layout P
         (snd (fold_left (evaluateOne this layout) population
                 (evaluated, best))).
Proof.
  induction population as [|individual rest IH];
    intros evaluated best Hp He Hb; [split; assumption|].
  inversion Hp as [|? ? Hind Hrest]; subst.
  change (fold_left (evaluateOne this layout) (individual :: rest)
            (evaluated, best))
    with (fold_left (evaluateOne this layout) rest
            (evaluateOne this layout (evaluated, best) individual)).
  assert (Hstep :
            evaluateOne this layout (evaluated, best) individual
            = (evaluated
                 ++ [Evaluated.mk individual
                       (fitnessOf this layout individual)
                       (evaluateIndividual this individual layout)],
               if snd best <? fitnessOf this layout individual
               then (Some (evaluateIndividual this individual layout),
                     fitnessOf this layout individual)
               else best))
    by (destruct best; reflexivity).
  rewrite Hstep. apply IH; [assumption| |].
  - apply Forall_app. split; [exact He|].
    constructor; [exact Hind | constructor].
  - destruct (snd best <? fitnessOf this layout individual); [|exact Hb].
    intros solution Hs. cbn [fst] in Hs. injection Hs as <-. eauto.
Qed.

Lemma takeElite_keeps count :
  forall i evaluated nextGeneration src n result n',
    allFrom P evaluated -> Forall P nextGeneration ->
    takeElite count i evaluated nextGeneration src n = Some (result, n') ->
    Forall P result.
Proof.
  induction count as [|count IH];
    intros i evaluated nextGeneration src n result n' He Hn; simpl.
  - unfold ret. intros H. now injection H as <- _.
  - destruct (nth_error evaluated i) as [entry|] eqn:E; [|discriminate].
    apply IH; [assumption|].
    apply Forall_app. split; [assumption|].
    constructor; [|constructor].
    unfold allFrom in He. rewrite Forall_forall in He.
    apply He. eauto using nth_error_In.
Qed.

Lemma drawTournament_keeps count :
  forall population tournament src n result n',
    allFrom P population -> allFrom P (defined tournament) ->
    drawTournament count population tournament src n = Some (result, n') ->
    allFrom P (defined result).
Proof.
  induction count as [|count IH];
    intros population tournament src n result n' Hp Ht; simpl.
  - unfold ret. intros H. now injection H as <- _.
  - unfold bind, Math_random. apply IH; [assumption|].
    unfold allFrom, defined. rewrite flat_map_app. apply Forall_app.
    split; [exact Ht|]. simpl.
    destruct (element population _) as [entry|] eqn:E; [|constructor].
    constructor; [|constructor].
    unfold allFrom in Hp. rewrite Forall_forall in Hp.
    apply Hp. eauto using element_In.
Qed.

Lemma tournamentSelection_keeps population src n individual n' :
  allFrom P population ->
  tournamentSelection population src n = Some (individual, n') ->
  P individual.
Proof.
  intros Hp. unfold tournamentSelection, bind.
  destruct (drawTournament 3 population [] src n) as [[tournament n1]|] eqn:E;
    [|discriminate].
  apply drawTournament_keeps in E; [|assumption|constructor].
  apply (sort_Forall byFitnessDescending) in E.
  destruct (sort byFitnessDescending (defined tournament)) as [|best rest];
    [discriminate|].
  unfold ret. intros H. injection H as <- _.
  now inversion E.
Qed.

Lemma breed_keeps count :
  forall evaluated nextGeneration src n result n',
    allFrom P evaluated -> Forall P nextGeneration ->
    breed this count evaluated layout nextGeneration src n = Some (result, n') ->
    Forall P result.
Proof.
  induction count as [|count IH];
    intros evaluated nextGeneration src n result n' He Hn; simpl.
  - unfold ret. intros H. now injection H as <- _.
  - unfold bind at 1.
    destruct (tournamentSelection evaluated src n) as [[parent1 n1]|] eqn:E1;
      [|discriminate].
    unfold bind at 1.
    destruct (tournamentSelection evaluated src n1) as [[parent2 n2]|] eqn:E2;
      [|discriminate].
    apply tournamentSelection_keeps in E1; [|assumption].
    apply tournamentSelection_keeps in E2; [|assumption].
    unfold bind at 1.
    destruct (crossover parent1 parent2 src n2) as [[offspring n3]|] eqn:E3;
      [|discriminate].
    unfold bind at 1.
    destruct (mutate this offspring layout src n3) as [[mutated n4]|] eqn:E4;
      [|discriminate].
    apply IH; [assumption|].
    apply Forall_app. split; [assumption|].
    constructor; [|constructor]. eauto.
Qed.

Lemma nextGenerationOf_keeps population best src n nextGeneration best' n' :
  Forall P population -> bestFrom this layout P best ->
  nextGenerationOf this layout population best src n
  = Some ((nextGeneration, best'), n') ->
  Forall P nextGeneration /\ bestFrom this layout P best'.
Proof.
  intros Hp Hb. unfold nextGenerationOf, evaluatePopulation.
  destruct (evaluatePopulation_keeps population [] best Hp) as [He Hb'];
    [constructor | assumption |].
  destruct (fold_left (evaluateOne this layout) population ([], best))
    as [evaluated best1].
  cbn [fst snd] in He, Hb'. unfold bind.
  apply (sort_Forall byFitnessDescending) in He.
  destruct (takeElite _ _ _ _ _ _) as [[elite n1]|] eqn:E1; [|discriminate].
  apply takeElite_keeps in E1; [|assumption|constructor].
  destruct (breed _ _ _ _ _ _ _) as [[bred n2]|] eqn:E2; [|discriminate].
  apply breed_keeps in E2; [|assumption|assumption].
  unfold ret. intros H. injection H as <- <- _. auto.
Qed.

Lemma evolve_keeps generations :
  forall population best src n best' n',
    Forall P population -> bestFrom this layout P best ->
    evolve this generations layout population best src n = Some (best', n') ->
    bestFrom this layout P best'.
Proof.
  induction generations as [|generations IH];
    intros population best src n best' n' Hp Hb; simpl.
  - unfold ret. intros H. now injection H as <- _.
  - unfold bind.
    destruct (nextGenerationOf this layout population best src n)
      as [[[nextGeneration best1] n1]|] eqn:E; [|discriminate].
    apply nextGenerationOf_keeps in E; [|assumption|assumption].
    destruct E as [Hn Hb1]. cbn [fst snd]. now apply IH.
Qed.

End GeneticInvariant.

Lemma genetic_solution_candidate (this : RackOptimizer.t)
    (racks : list Rack.t) (layout : Layout.t) (src : nat -> float) (n : nat)
    (solution : Solution.t) (n' : nat) :
  geneticAlgorithmOptimization this racks layout src n
  = Some (Some solution, n') ->
  exists individual,
    candidateFor this layout racks individual
    /\ solution = evaluateIndividual this individual layout.
Proof.
  unfold geneticAlgorithmOptimization, initializePopulation, bind.
  destruct (initializeFrom_valid this layout racks
              (RackOptimizer.populationSize this) [] src n)
    as [population [n1 [E [_ Hall]]]]; [constructor|].
  rewrite E.
  destruct (evolve this (RackOptimizer.generations this) layout population
              (None, 0) src n1) as [[best n2]|] eqn:E1; [|discriminate].
  unfold ret. intros H. injection H as Hbest _.
  apply (evolve_keeps this layout (candidateFor this layout racks)) in E1.
  - exact (E1 solution Hbest).
  - exact (crossover_candidate this layout racks).
  - exact (mutate_candidate this layout racks).
  - eapply Forall_impl; [|exact Hall].
    intros individual [[Hfree _] Hsame]. split; assumption.
  - intros s Hs. discriminate Hs.
Qed.

(** X7: a solution returned by the genetic strategy is the evaluation of a
    candidate that holds the requested racks, one for one and in order, in
    which every rack with a position passes the validator on its own:
    within the layout, inside the store shape and off every obstacle.  (Two
    racks of the candidate may still overlap: crossover is not
    validated.) *)
Theorem genetic_returns_candidate (this : RackOptimizer.t)
    (racks : list Rack.t) (layout : Layout.t) (src : nat -> float) (n : nat)
    (solution : Solution.t) (n' : nat) :
  geneticAlgorithmOptimization this racks layout src n
  = Some (Some solution, n') ->
  exists individual,
    candidateFor this layout racks individual
    /\ solution = evaluateIndividual this individual layout
    /\ Solution.racks solution = filter isPlaced individual.
Proof.
  intros H.
  destruct (genetic_solution_candidate this racks layout src n solution n' H)
    as [individual [Hc ->]].
  exists individual. split; [exact Hc|]. split; reflexivity.
Qed.

(** The theorem applies to a run of the small engine on two standard racks
    in the 40 x 30 store, which returns a candidate. *)
Lemma genetic_returns_candidate_witness :
  match geneticAlgorithmOptimization smallOptimizer Crossing.twoStandard
          Samples.plainStore Crossing.mixedDraws 0%nat with
  | Some (Some solution, _) =>
      exists individual,
        candidateFor smallOptimizer Samples.plainStore Crossing.twoStandard
          individual
        /\ solution = evaluateIndividual smallOptimizer individual
                        Samples.plainStore
        /\ Solution.racks solution = filter isPlaced individual
  | _ => False
  end.
Proof.
  pose proof (genetic_returns_candidate smallOptimizer Crossing.twoStandard
                Samples.plainStore Crossing.mixedDraws 0%nat) as H.
  destruct (geneticAlgorithmOptimization smallOptimizer Crossing.twoStandard
              Samples.plainStore Crossing.mixedDraws 0%nat)
    as [[[solution|] n']|] eqn:E.
  - exact (H solution n' eq_refl).
  - vm_compute in E. discriminate E.
  - vm_compute in E. discriminate E.
Defined.

(** ** Mutation and crossover on valid candidates *)

Lemma validCandidate_pair (this : RackOptimizer.t) (layout : Layout.t)
    (a b : Rack.t) :
  standsFree this layout a -> standsFree this layout b -> apart this a b ->
  validCandidate this layout [a; b].
Proof.
  intros Ha Hb Hab.
  apply (validCandidate_snoc this layout [a] b); [|exact Hb|].
  - apply (validCandidate_snoc this layout [] a);
      [apply validCandidate_nil | exact Ha | intros x []].
  - intros x [<-|[]]. exact Hab.
Qed.

Lemma hasOverlap_not_valid (this : RackOptimizer.t) (layout : Layout.t)
    (racks : list Rack.t) :
  hasOverlap racks -> ~ validCandidate this layout racks.
Proof.
  intros (i & j & a & b & Hij & Ha & Hb & pa & pb & Epa & Epb & Hover)
         [_ Hpairs].
  destruct (Hpairs i j a b Hij Ha Hb pa pb Epa Epb) as [Hno _].
  congruence.
Qed.

Ltac placed_pair :=
  apply validCandidate_pair;
  [ intros p Ep; injection Ep as <-; vm_compute; reflexivity
  | intros p Ep; injection Ep as <-; vm_compute; reflexivity
  | intros pa pb Ea Eb; injection Ea as <-; injection Eb as <-;
    split; [vm_compute; reflexivity
           | left; apply atLeast_intro; vm_compute; reflexivity] ].

Lemma leftFirst_valid :
  validCandidate Enhanced.optimizer Samples.plainStore Crossing.leftFirst.
Proof.
  let racks := eval vm_compute in Crossing.leftFirst in
  change Crossing.leftFirst with racks.
  placed_pair.
Qed.

Lemma rightFirst_valid :
  validCandidate Enhanced.optimizer Samples.plainStore Crossing.rightFirst.
Proof.
  let racks := eval vm_compute in Crossing.rightFirst in
  change Crossing.rightFirst with racks.
  placed_pair.
Qed.

(** X9: whatever the draws, [mutate] turns a valid candidate into a valid
    candidate: a moved rack is accepted by the validator against all the
    other placed racks. *)
Theorem mutate_preserves_valid (this : RackOptimizer.t)
    (individual : list Rack.t) (layout : Layout.t) (src : nat -> float)
    (n : nat) :
  validCandidate this layout individual ->
  exists mutated n',
    mutate this individual layout src n = Some (mutated, n')
    /\ validCandidate this layout mutated.
Proof.
  intros H. unfold mutate. now apply mutateFrom_valid.
Qed.

(** The theorem applies to two standard racks standing 20 ft apart, with
    draws that make [mutate] move both. *)
Lemma mutate_preserves_valid_witness :
  exists mutated n',
    mutate Enhanced.optimizer Crossing.leftFirst Samples.plainStore
      Crossing.eagerDraws 0%nat = Some (mutated, n')
    /\ validCandidate Enhanced.optimizer Samples.plainStore mutated.
Proof.
  apply (mutate_preserves_valid Enhanced.optimizer Crossing.leftFirst
           Samples.plainStore Crossing.eagerDraws 0%nat).
  exact leftFirst_valid.
Defined.

(** X10: crossover does not preserve validity.  Two valid candidates over
    the same two racks have, for a draw of 0.5, an offspring in which both
    racks stand at the origin; [mutate] leaves it as it is, and its
    evaluation keeps both racks. *)
Theorem crossover_breaks_validity :
  exists parent1 parent2 src offspring,
    validCandidate Enhanced.optimizer Samples.plainStore parent1
    /\ validCandidate Enhanced.optimizer Samples.plainStore parent2
    /\ sameRacks parent1 parent2
    /\ run (child <- crossover parent1 parent2 ;;
            mutate Enhanced.optimizer child Samples.plainStore) src
       = Some offspring
    /\ hasOverlap offspring
    /\ ~ validCandidate Enhanced.optimizer Samples.plainStore offspring
    /\ Solution.racks
         (evaluateIndividual Enhanced.optimizer offspring Samples.plainStore)
       = offspring.
Proof.
  exists Crossing.leftFirst, Crossing.rightFirst, Degenerate.draws.
  eexists.
  split; [exact leftFirst_valid|].
  split; [exact rightFirst_valid|].
  split; [reflexivity|].
  split; [vm_compute; reflexivity|].
  assert (H : hasOverlap
                (Crossing.placeAt Crossing.twoStandard
                   [Point.mk 0 0; Point.mk 0 0])).
  { exists 0%nat, 1%nat. eexists _, _.
    split; [discriminate|].
    split; [vm_compute; reflexivity|].
    split; [vm_compute; reflexivity|].
    eexists _, _. repeat split. }
  split; [|split].
  - vm_compute. vm_compute in H. exact H.
  - apply hasOverlap_not_valid. vm_compute. vm_compute in H. exact H.
  - vm_compute. reflexivity.
Qed.

(** X11: the genetic strategy may return overlapping racks.  With a
    population of 4 and 2 generations there are draws for which the
    solution returned for two standard racks holds both with overlapping
    footprints. *)
Theorem genetic_may_return_overlap :
  exists src solution n',
    geneticAlgorithmOptimization smallOptimizer Crossing.twoStandard
      Samples.plainStore src 0%nat = Some (Some solution, n')
    /\ hasOverlap (Solution.racks solution).
Proof.
  exists Crossing.cyclicDraws. eexists _, _.
  split; [vm_compute; reflexivity|].
  exists 0%nat, 1%nat. eexists _, _.
  split; [discriminate|].
  split; [vm_compute; reflexivity|].
  split; [vm_compute; reflexivity|].
  eexists _, _.
  split; [reflexivity|]. split; [reflexivity|].
  vm_compute. reflexivity.
Qed.

(** ** Grid strategy of the image engine *)

Section ImageGridFacts.

Variable this : RackOptimizer.t.

Lemma image_isValidPlacement_true rack position layout otherRacks :
  Image.isValidPlacement this rack position layout otherRacks = true ->
  ((Point.x position <? 0) = false /\ (Point.y position <? 0) = false
   /\ gtb (Point.x position + Rack.width rack) (Layout.width layout) = false
   /\ gtb (Point.y position + Rack.height rack) (Layout.height layout) = false)
  /\ (forall constraint, In constraint (Layout.constraints layout) ->
        rectanglesOverlap position (Rack.dimensions rack)
          (Constraint.position constraint) (Constraint.dimensions constraint)
        = false)
  /\ (forall other otherPosition, In other otherRacks ->
        Rack.position other = Some otherPosition ->
        rectanglesOverlap position (Rack.dimensions rack) otherPosition
          (Rack.dimensions other) = false
        /\ atLeast (Image.positionDistance position otherPosition)
                   (minRequiredDistance this rack other)).
Proof.
  unfold Image.isValidPlacement.
  destruct (Point.x position <? 0); [discriminate|].
  destruct (Point.y position <? 0); [discriminate|].
  destruct (gtb (Point.x position + Rack.width rack) (Layout.width layout));
    [discriminate|].
  destruct (gtb (Point.y position + Rack.height rack) (Layout.height layout));
    [discriminate|].
  cbn [orb].
  destruct (existsb _ (Layout.constraints layout)) eqn:Ec; [discriminate|].
  destruct (existsb _ otherRacks) eqn:Ep; [discriminate|].
  intros Ha. split; [auto|]. split.
  - intros constraint Hin.
    exact (existsb_false_In _ _ _ Ec Hin).
  - intros other po Hin Epos. split.
    + pose proof (existsb_false_In _ _ _ Ep Hin) as H. simpl in H.
      now rewrite Epos in H.
    + apply atLeast_intro.
      match goal with |- ?c = false => destruct c eqn:E end; [|reflexivity].
      assert (Image.hasAdequateAisles this rack position otherRacks = false);
        [|congruence].
      apply image_hasAdequateAisles_false_iff, Exists_exists.
      exists other. split; [assumption|]. exists po. auto.
Qed.

Lemma tryRandomCells_returns remaining rack layout placedRacks src n :
  exists found n',
    Image.tryRandomCells this remaining rack layout placedRacks src n
    = Some (found, n')
    /\ forall position,
         found = Some position ->
         Image.isValidPlacement this rack position layout placedRacks = true.
Proof.
  revert n. induction remaining as [|remaining IH]; intros n; simpl.
  - exists None, n. split; [reflexivity | discriminate].
  - unfold bind, Math_random.
    match goal with |- context [if ?c then _ else _] =>
      destruct c eqn:E; [|apply IH] end.
    eexists _, _. split; [reflexivity|].
    intros position H. injection H as <-. exact E.
Qed.

Lemma placeFrom_invariant layout racks :
  forall placedRacks src n,
    imageInvariant this layout placedRacks ->
    exists result n',
      Image.placeFrom this racks layout placedRacks src n = Some (result, n')
      /\ imageInvariant this layout result
      /\ (List.length result <= List.length placedRacks + List.length racks)%nat.
Proof.
  induction racks as [|rack rest IH]; intros placedRacks src n Hinv;
    cbn [Image.placeFrom List.length].
  - exists placedRacks, n. split; [reflexivity|]. split; [assumption | lia].
  - unfold bind.
    destruct (tryRandomCells_returns 100 rack layout placedRacks src n)
      as [found [n1 [E Hvalid]]].
    rewrite E. destruct found as [position|].
    + destruct (IH (placedRacks ++ [Rack.withPosition rack (Some position)])
                  src n1) as [result [n' [E' [Hres Hlen]]]].
      * destruct Hinv as [Hin [Hobs Hpairs]].
        destruct (image_isValidPlacement_true _ _ _ _ (Hvalid _ eq_refl))
          as [Hb [Hc Hp]].
        split; [|split].
        -- apply Forall_app. split; [assumption|].
           constructor; [|constructor]. exists position.
           split; [reflexivity | exact Hb].
        -- apply Forall_app. split; [assumption|].
           constructor; [|constructor]. exists position.
           split; [reflexivity | exact Hc].
        -- apply OrderedPairs_snoc; [assumption|].
           intros earlier Hearlier.
           rewrite Forall_forall in Hobs.
           destruct (Hobs earlier Hearlier) as [pe [Epe _]].
           exists pe, position. split; [exact Epe|]. split; [reflexivity|].
           exact (Hp earlier pe Hearlier Epe).
      * exists result, n'. split; [exact E'|]. split; [exact Hres|].
        rewrite length_app in Hlen. simpl in Hlen. lia.
    + destruct (IH placedRacks src n1 Hinv) as [result [n' [E' [Hres Hlen]]]].
      exists result, n'. split; [exact E'|]. split; [exact Hres | lia].
Qed.

End ImageGridFacts.

(** X12: whatever the draws, the grid strategy of [image-optimizer.js]
    returns, and in the rack set it returns every rack has a position
    within the layout and off every obstacle, and every rack keeps clear of
    the racks placed before it: the footprints do not overlap and the
    distance between the two positions is at least the required minimum.
    It returns at most as many racks as were requested. *)
Theorem image_grid_valid (this : RackOptimizer.t) (racks : list Rack.t)
    (layout : Layout.t) (src : nat -> float) (n : nat) :
  exists solution n',
    Image.gridBasedOptimization this racks layout src n = Some (solution, n')
    /\ imageInvariant this layout (Solution.racks solution)
    /\ (List.length (Solution.racks solution) <= List.length racks)%nat.
Proof.
  unfold Image.gridBasedOptimization, bind.
  destruct (placeFrom_invariant this layout racks [] src n)
    as [result [n' [E [Hinv Hlen]]]].
  { split; [constructor|]. split; [constructor | apply OrderedPairs_nil]. }
  rewrite E. eexists _, _. split; [reflexivity|].
  split; [exact Hinv | exact Hlen].
Qed.

(** ** Workflow score *)

Lemma clamp_within (lo hi v : float) :
  is_nan lo = false -> is_nan hi = false -> (lo <=? hi) = true ->
  within lo hi (clamp v lo hi).
Proof.
  intros Hlo Hhi Hle. unfold within, clamp.
  destruct (is_nan v) eqn:Hv.
  - assert (E : Math_min hi (Math_max lo v) = nan).
    { unfold Math_max. rewrite Hv, orb_true_r. unfold Math_min.
      rewrite Hhi. reflexivity. }
    rewrite E. split; [|split].
    + rewrite ltb_spec. reflexivity.
    + rewrite ltb_spec. unfold SFltb. change (Prim2SF nan) with S754_nan.
      now destruct (Prim2SF hi) as [[|]|[|]| |[|] m e].
    + intros H. vm_compute in H. discriminate H.
  - assert (Hm : is_nan (Math_max lo v) = false).
    { destruct (Math_max_cases lo v Hlo Hv) as [E|E]; rewrite E; auto. }
    assert (H0 : (lo <=? Math_max lo v) = true) by now apply Math_max_ge_l.
    assert (H1 : (lo <=? Math_min hi (Math_max lo v)) = true).
    { destruct (Math_min_cases hi (Math_max lo v) Hhi Hm) as [E|E];
        rewrite E; auto. }
    assert (H2 : (Math_min hi (Math_max lo v) <=? hi) = true)
      by now apply Math_min_le_l.
    repeat split; auto using leb_true_ltb_false.
Qed.

Lemma sameValueZero_refl (v : float) : sameValueZero v v = true.
Proof.
  unfold sameValueZero. destruct (is_nan v) eqn:Hv; [apply orb_true_r|].
  rewrite FloatAxioms.eqb_spec. unfold SFeqb.
  destruct (SFcompare_refl (Prim2SF v)) as [->|Hn]; [reflexivity|].
  apply SFcompare_None in Hn.
  destruct Hn as [Hn|Hn]; now apply is_nan_Prim2SF in Hn.
Qed.

Lemma setOf_constant (v : float) (values : list float) :
  values <> [] -> Forall (eq v) values -> setOf values = [v].
Proof.
  intros Hne H. unfold setOf.
  destruct H as [|first rest <- Hrest]; [contradiction|].
  cbn [fold_left existsb app]. clear Hne.
  induction Hrest as [|next rest <- Hrest IH]; [reflexivity|].
  cbn [fold_left existsb]. rewrite sameValueZero_refl. exact IH.
Qed.

Lemma positions_length (racks : list Rack.t) :
  List.length
    (flat_map (fun rack => match Rack.position rack with
                           | Some position => [position]
                           | None => []
                           end) racks)
  = List.length (filter isPlaced racks).
Proof.
  induction racks as [|rack rest IH]; [reflexivity|].
  cbn [flat_map filter]. unfold isPlaced at 1.
  destruct (Rack.position rack); cbn [app List.length]; auto.
Qed.

Lemma positions_constant (coordinate : Point.t -> float) (v : float)
    (racks : list Rack.t) :
  (forall rack position,
     In rack racks -> Rack.position rack = Some position ->
     coordinate position = v) ->
  Forall (eq v)
    (map coordinate
       (flat_map (fun rack => match Rack.position rack with
                              | Some position => [position]
                              | None => []
                              end) racks)).
Proof.
  induction racks as [|rack rest IH]; intros H; [constructor|].
  cbn [flat_map]. rewrite map_app. apply Forall_app. split.
  - destruct (Rack.position rack) as [position|] eqn:E; [|constructor].
    constructor; [|constructor]. symmetry. apply (H rack); [now left | exact E].
  - apply IH. intros r p Hin. apply H. now right.
Qed.

Lemma map_nonempty {A B : Type} (f : A -> B) (l : list A) :
  (2 <= List.length l)%nat -> map f l <> [].
Proof. destruct l; simpl; [lia | discriminate]. Qed.

(** X13: the workflow score of the engine is never below 0 nor above 1,
    and lies in [[0, 1]] whenever it is a number; that of
    [image-optimizer.js] is 1, 0.5 or 0.8. *)
Theorem calculateWorkflow_bounds (racks : list Rack.t) :
  within 0 1 (calculateWorkflow racks)
  /\ (Image.calculateWorkflow racks = 1
      \/ Image.calculateWorkflow racks = 0.5
      \/ Image.calculateWorkflow racks = 0.8).
Proof.
  split.
  - unfold calculateWorkflow.
    destruct (Nat.ltb (List.length racks) 2);
      [repeat split; vm_compute; reflexivity|].
    destruct (Nat.ltb (List.length _) 2);
      [repeat split; vm_compute; reflexivity|].
    cbv zeta.
    match goal with |- within 0 1 (Math_min 1 (Math_max 0 ?v)) =>
      exact (clamp_within 0 1 v eq_refl eq_refl eq_refl) end.
  - unfold Image.calculateWorkflow.
    destruct (Nat.ltb (List.length racks) 2); [auto|].
    destruct (Nat.ltb (List.length _) 2); [auto|].
    cbv zeta. destruct (_ || _); auto.
Qed.

(** X14: two or more placed racks that all stand in one column (the same
    [x]) or all in one row (the same [y]) get the workflow score 0 from
    the engine, and 0.5 from [image-optimizer.js]. *)
Theorem workflow_single_line (racks : list Rack.t) :
  (2 <= List.length (filter isPlaced racks))%nat ->
  (exists x0, forall rack position,
      In rack racks -> Rack.position rack = Some position ->
      Point.x position = x0)
  \/ (exists y0, forall rack position,
        In rack racks -> Rack.position rack = Some position ->
        Point.y position = y0) ->
  calculateWorkflow racks = 0 /\ Image.calculateWorkflow racks = 0.5.
Proof.
  intros Hplaced Hline.
  assert (Hracks : Nat.ltb (List.length racks) 2 = false).
  { apply Nat.ltb_ge. pose proof (filter_length_le isPlaced racks). lia. }
  pose proof (positions_length racks) as Hlen.
  unfold calculateWorkflow, Image.calculateWorkflow.
  rewrite Hracks.
  set (positions := flat_map _ racks) in *.
  assert (Hpos : Nat.ltb (List.length positions) 2 = false)
    by (apply Nat.ltb_ge; lia).
  rewrite Hpos. cbv zeta.
  assert (Hne : (2 <= List.length positions)%nat) by lia.
  destruct Hline as [[x0 Hx]|[y0 Hy]].
  - rewrite (setOf_constant x0 (map Point.x positions));
      [|now apply map_nonempty | now apply positions_constant].
    rewrite (setOf_constant (Math_round (x0 / 4) * 4)
               (map (fun p => Math_round (Point.x p / 4) * 4) positions));
      [|now apply map_nonempty|].
    + split; reflexivity.
    + apply (positions_constant
               (fun p => Math_round (Point.x p / 4) * 4)).
      intros rack position Hin E. now rewrite (Hx rack position Hin E).
  - rewrite (setOf_constant y0 (map Point.y positions));
      [|now apply map_nonempty | now apply positions_constant].
    rewrite (setOf_constant (Math_round (y0 / 4) * 4)
               (map (fun p => Math_round (Point.y p / 4) * 4) positions));
      [|now apply map_nonempty|].
    + unfold sort at 2 4. cbn [fold_left insertSorted List.length Nat.ltb Nat.leb].
      rewrite !andb_false_r, !orb_true_r. split; reflexivity.
    + apply (positions_constant
               (fun p => Math_round (Point.y p / 4) * 4)).
      intros rack position Hin E. now rewrite (Hy rack position Hin E).
Qed.

(** The theorem applies to the three racks of the first sample parent,
    which all stand at the origin. *)
Lemma workflow_single_line_witness :
  calculateWorkflow Samples.parentOne = 0
  /\ Image.calculateWorkflow Samples.parentOne = 0.5.
Proof.
  apply (workflow_single_line Samples.parentOne).
  - vm_compute. lia.
  - left. exists 0. intros rack position Hin E.
    vm_compute in Hin.
    destruct Hin as [<-|[<-|[<-|[]]]]; injection E as <-; reflexivity.
Defined.

(** ** Whole runs *)

Lemma filter_all_placed (racks : list Rack.t) :
  (forall rack, In rack racks -> exists position,
      Rack.position rack = Some position) ->
  filter isPlaced racks = racks.
Proof.
  induction racks as [|rack rest IH]; intros H; [reflexivity|].
  cbn [filter]. unfold isPlaced at 1.
  destruct (H rack (or_introl eq_refl)) as [position ->].
  f_equal. apply IH. intros r Hin. apply H. now right.
Qed.

(** What the validator has established for every placed rack of a list in
    which the placed racks stand free. *)
Lemma standsFree_facts (this : RackOptimizer.t) (layout : Layout.t)
    (racks : list Rack.t) :
  Forall (standsFree this layout) racks ->
  Forall
    (fun rack =>
       exists position,
         Rack.position rack = Some position
         /\ insideLayout layout rack
         /\ (forall storeShape,
               Layout.storeShape layout = Some storeShape ->
               isRackInStoreShape rack position storeShape = true)
         /\ (forall constraint, In constraint (Layout.constraints layout) ->
               rectanglesOverlap position (Rack.dimensions rack)
                 (Constraint.position constraint)
                 (Constraint.dimensions constraint) = false))
    (filter isPlaced racks).
Proof.
  intros Hfree. apply Forall_forall. intros rack Hin.
  apply filter_In in Hin. destruct Hin as [Hin Hplaced].
  unfold isPlaced in Hplaced.
  destruct (Rack.position rack) as [position|] eqn:E; [|discriminate].
  rewrite Forall_forall in Hfree.
  destruct (isValidPlacement_alone_facts this rack position layout
              (Hfree rack Hin position E)) as [Hb [Hs Hc]].
  exists position. split; [reflexivity|]. split; [|split; assumption].
  exists position. split; [exact E | exact Hb].
Qed.

(** X15: evaluated as an individual of the genetic strategy, the rack set
    returned by [placeRacks] gives back the solution of [placeRacks]: both
    strategies score a layout in the same way. *)
Theorem evaluateIndividual_placeRacks (this : RackOptimizer.t)
    (racks : list Rack.t) (layout : Layout.t) :
  evaluateIndividual this (Solution.racks (placeRacks this racks layout)) layout
  = placeRacks this racks layout.
Proof.
  unfold evaluateIndividual.
  rewrite filter_all_placed by (apply placeRacks_all_placed).
  reflexivity.
Qed.

(** X17: in the layout returned by [optimizer.js], every returned rack has
    a position within the store and overlaps none of the obstacles enabled
    in the configuration. *)
Theorem basic_racks_avoid_enabled_obstacles (config : Basic.Config.t) :
  let result := Basic.optimizeLayout config in
  let clearOf (rack : Rack.t) (position : Point.t) (obstacle : Constraint.t) :=
    rectanglesOverlap position (Rack.dimensions rack)
      (Constraint.position obstacle) (Constraint.dimensions obstacle)
    = false in
  Forall
    (fun rack =>
       exists position,
         Rack.position rack = Some position
         /\ insideLayout (OptimizationResult.layout result) rack
         /\ (Basic.Config.officeConstraint config = true ->
             clearOf rack position Basic.office)
         /\ (Basic.Config.exitConstraint config = true ->
             clearOf rack position Basic.exit)
         /\ (Basic.Config.utilityConstraint config = true ->
             clearOf rack position Basic.utility)
         /\ (Basic.Config.pillarConstraint config = true ->
             clearOf rack position Basic.pillar1))
    (OptimizationResult.racks (Basic.optimizeLayout config)).
Proof.
  intros result clearOf. unfold result, Basic.optimizeLayout.
  cbn [OptimizationResult.racks OptimizationResult.layout].
  set (layout := Layout.mk _ _ _ _ _ _).
  set (racks := generateRacks _ _).
  destruct (placeRacks_validCandidate Basic.optimizer racks layout)
    as [Hfree _].
  apply standsFree_facts in Hfree.
  rewrite filter_all_placed in Hfree by (apply placeRacks_all_placed).
  eapply Forall_impl; [|exact Hfree].
  intros rack [position [E [Hin [_ Hc]]]].
  exists position. split; [exact E|]. split; [exact Hin|].
  unfold clearOf.
  repeat split; intros H; apply Hc; unfold layout;
    cbn [Layout.constraints]; unfold Basic.getActiveConstraints;
    rewrite H, !in_app_iff; cbn [In]; auto 8.
Qed.

Lemma layoutOf_returns (config : Enhanced.Config.t) (src : nat -> float)
    (n : nat) (layout : Layout.t) (n' : nat) :
  Enhanced.layoutOf config src n = Some (layout, n') ->
  n' = n
  /\ exists storeShape,
       Enhanced.getStoreShape (Enhanced.Config.storeShape config)
         (Enhanced.Config.storeWidth config)
         (Enhanced.Config.storeHeight config) = Some storeShape
       /\ Layout.storeShape layout = Some storeShape
       /\ Layout.constraints layout
          = [Constraint.mk "processing" (Point.mk 0 0)
               (Dimensions.mk
                  (Math_sqrt (Enhanced.Config.processingArea config))
                  (Enhanced.Config.processingArea config
                   / Math_sqrt (Enhanced.Config.processingArea config)))
               "processing" "#9C27B0"].
Proof.
  unfold Enhanced.layoutOf, Enhanced.getProcessingArea,
    Enhanced.getEntrancePosition, Enhanced.getLoadingDockPosition,
    Enhanced.getStoreShape.
  destruct (String.eqb _ "l-shaped");
    [|destruct (String.eqb _ "t-shaped");
      [|destruct (Enhanced.inheritedMember _); [discriminate|]]];
    (intros H; injection H as <- <-; split; [reflexivity|];
     eexists; split; [reflexivity|]; split; reflexivity).
Qed.

(** X18: whatever the method and the draws, in a result returned by
    [optimizeLayout] of the enhanced engine every rack has a position
    within the store, has its four corners inside the store shape of the
    configuration, and does not overlap the processing area, which lies at
    the origin. *)
Theorem optimizeLayout_racks_stand_free (config : Enhanced.Config.t)
    (src : nat -> float) (n : nat) (result : OptimizationResult.t) (n' : nat) :
  Enhanced.optimizeLayout config src n = Some (result, n') ->
  exists storeShape,
    Enhanced.getStoreShape (Enhanced.Config.storeShape config)
      (Enhanced.Config.storeWidth config)
      (Enhanced.Config.storeHeight config) = Some storeShape
    /\ Forall
         (fun rack =>
            exists position,
              Rack.position rack = Some position
              /\ insideLayout (OptimizationResult.layout result) rack
              /\ isRackInStoreShape rack position storeShape = true
              /\ rectanglesOverlap position (Rack.dimensions rack)
                   (Point.mk 0 0)
                   (Dimensions.mk
                      (Math_sqrt (Enhanced.Config.processingArea config))
                      (Enhanced.Config.processingArea config
                       / Math_sqrt (Enhanced.Config.processingArea config)))
                 = false)
         (OptimizationResult.racks result).
Proof.
  unfold Enhanced.optimizeLayout. unfold bind at 1.
  destruct (Enhanced.layoutOf config src n) as [[layout n0]|] eqn:E;
    [|discriminate].
  destruct (layoutOf_returns config src n layout n0 E)
    as [-> [storeShape [Hget [Hshape Hconstraints]]]].
  intros H. exists storeShape. split; [exact Hget|]. revert H.
  set (racks := generateRacks Enhanced.optimizer _).
  assert (Hfacts : forall placed,
             Forall (standsFree Enhanced.optimizer layout) placed ->
             Forall
               (fun rack =>
                  exists position,
                    Rack.position rack = Some position
                    /\ insideLayout layout rack
                    /\ isRackInStoreShape rack position storeShape = true
                    /\ rectanglesOverlap position (Rack.dimensions rack)
                         (Point.mk 0 0)
                         (Dimensions.mk
                            (Math_sqrt (Enhanced.Config.processingArea config))
                            (Enhanced.Config.processingArea config
                             / Math_sqrt
                                 (Enhanced.Config.processingArea config)))
                       = false)
               (filter isPlaced placed)).
  { intros placed Hfree. apply standsFree_facts in Hfree.
    eapply Forall_impl; [|exact Hfree].
    intros rack [position [Ep [Hin [Hs Hc]]]].
    exists position. split; [exact Ep|]. split; [exact Hin|].
    split; [exact (Hs _ Hshape)|].
    apply (Hc (Constraint.mk "processing" (Point.mk 0 0)
                 (Dimensions.mk
                    (Math_sqrt (Enhanced.Config.processingArea config))
                    (Enhanced.Config.processingArea config
                     / Math_sqrt (Enhanced.Config.processingArea config)))
                 "processing" "#9C27B0")).
    rewrite Hconstraints. now left. }
  destruct (String.eqb _ "genetic").
  - unfold bind.
    destruct (geneticAlgorithmOptimization Enhanced.optimizer racks layout
                src n) as [[[solution|] n1]|] eqn:Erun; try discriminate.
    unfold ret. intros H. injection H as <- _.
    cbn [OptimizationResult.racks OptimizationResult.layout].
    destruct (genetic_solution_candidate _ _ _ _ _ _ _ Erun)
      as [individual [[_ Hfree] ->]].
    exact (Hfacts individual Hfree).
  - unfold bind, ret. intros H. injection H as <- _.
    cbn [OptimizationResult.racks OptimizationResult.layout].
    unfold gridBasedOptimization.
    destruct (placeRacks_validCandidate Enhanced.optimizer racks layout)
      as [Hfree _].
    apply Hfacts in Hfree.
    rewrite filter_all_placed in Hfree by (apply placeRacks_all_placed).
    exact Hfree.
Qed.

(** The theorem applies to the grid run on the L-shaped sample store, which
    returns a result. *)
Lemma optimizeLayout_racks_stand_free_witness :
  match Enhanced.optimizeLayout lShapedConfig Degenerate.draws 0%nat with
  | Some (result, _) =>
      exists storeShape,
        Enhanced.getStoreShape (Enhanced.Config.storeShape lShapedConfig)
          (Enhanced.Config.storeWidth lShapedConfig)
          (Enhanced.Config.storeHeight lShapedConfig) = Some storeShape
        /\ Forall
             (fun rack =>
                exists position,
                  Rack.position rack = Some position
                  /\ insideLayout (OptimizationResult.layout result) rack
                  /\ isRackInStoreShape rack position storeShape = true
                  /\ rectanglesOverlap position (Rack.dimensions rack)
                       (Point.mk 0 0)
                       (Dimensions.mk
                          (Math_sqrt
                             (Enhanced.Config.processingArea lShapedConfig))
                          (Enhanced.Config.processingArea lShapedConfig
                           / Math_sqrt
                               (Enhanced.Config.processingArea lShapedConfig)))
                     = false)
             (OptimizationResult.racks result)
  | None => False
  end.
Proof.
  pose proof (optimizeLayout_racks_stand_free lShapedConfig Degenerate.draws
                0%nat) as H.
  destruct (Enhanced.optimizeLayout lShapedConfig Degenerate.draws 0%nat)
    as [[result n']|] eqn:E.
  - exact (H result n' eq_refl).
  - vm_compute in E. discriminate E.
Defined.



(** ** Mutation of the image engine *)

(** X19: the mutation of [image-optimizer.js] does not preserve validity.
    Every moved rack is validated against the other racks as they stood
    before the call, so two racks moved in one call may end up on top of
    each other: two standard racks that stand clear of each other at
    (10, 10) and (10, 18.5) are moved to (14.9, 10) and (14.9, 17), where
    their footprints overlap. *)
Theorem image_mutate_breaks_validity :
  exists individual src mutated n',
    imageInvariant Image.optimizer Samples.plainStore individual
    /\ Image.mutate Image.optimizer individual Samples.plainStore src 0%nat
       = Some (mutated, n')
    /\ map Rack.position mutated
       = [Some (Point.mk 14.9 10); Some (Point.mk 14.9 17)]
    /\ hasOverlap mutated.
Proof.
  exists Crossing.stacked, Crossing.slidingDraws. eexists _, _.
  split; [|split; [vm_compute; reflexivity|split; [reflexivity|]]].
  - let racks := eval vm_compute in Crossing.stacked in
    change Crossing.stacked with racks.
    split; [|split].
    + repeat constructor; eexists; (split; [reflexivity|]);
        repeat split; vm_compute; reflexivity.
    + repeat constructor; eexists; (split; [reflexivity|]); intros c [].
    + intros i j a b Hij Ha Hb.
      destruct i as [|[|i]]; destruct j as [|[|j]];
        try lia; cbn [nth_error] in Ha, Hb;
        try (destruct j; discriminate Hb); try (destruct i; discriminate Ha).
      injection Ha as <-. injection Hb as <-.
      eexists _, _. split; [reflexivity|]. split; [reflexivity|].
      split; [vm_compute; reflexivity|].
      apply atLeast_intro. vm_compute. reflexivity.
  - exists 0%nat, 1%nat. eexists _, _.
    split; [discriminate|].
    split; [reflexivity|]. split; [reflexivity|].
    eexists _, _. split; [reflexivity|]. split; [reflexivity|].
    vm_compute. reflexivity.
Qed.

(** ** Tournament selection *)

Lemma element_nil {A : Type} (v : float) : element (@nil A) v = None.
Proof.
  unfold element. destruct (index_of v) as [z|]; [|reflexivity].
  destruct (z <? _)%Z; [|reflexivity]. now destruct (Z.to_nat z).
Qed.

Lemma drawTournament_cursor count :
  forall population tournament src n,
    exists drawn,
      drawTournament count population tournament src n
      = Some (tournament ++ drawn, (n + count)%nat)
      /\ List.length drawn = count
      /\ (population = [] -> defined drawn = []).
Proof.
  induction count as [|count IH]; intros population tournament src n;
    cbn [drawTournament].
  - exists []. rewrite app_nil_r, Nat.add_0_r. repeat split.
  - unfold bind, Math_random.
    destruct (IH population
                (tournament
                   ++ [element population
                         (Math_floor
                            (src n * float_of_nat (List.length population)))])
                src (S n)) as [drawn [E [Hlen Hnil]]].
    eexists (_ :: drawn). rewrite <- app_assoc in E. cbn [app] in E.
    rewrite E. split; [f_equal; f_equal; lia|].
    split; [cbn [List.length]; lia|].
    intros Hp. unfold defined. cbn [flat_map]. subst population.
    rewrite element_nil. cbn [app]. now apply Hnil.
Qed.

(** X20: tournament selection makes three draws and returns the individual
    of an entry of the population it was given; on an empty population it
    throws. *)
Theorem tournamentSelection_spec (population : list Evaluated.t)
    (src : nat -> float) (n : nat) :
  (population = [] -> tournamentSelection population src n = None)
  /\ forall individual n',
       tournamentSelection population src n = Some (individual, n') ->
       n' = (n + 3)%nat
       /\ exists entry,
            In entry population /\ individual = Evaluated.individual entry.
Proof.
  destruct (drawTournament_cursor 3 population [] src n)
    as [drawn [E [_ Hnil]]].
  split.
  - intros Hp. unfold tournamentSelection, bind. rewrite E.
    cbn [app]. now rewrite (Hnil Hp).
  - intros individual n' H. split.
    + unfold tournamentSelection, bind in H. rewrite E in H.
      destruct (sort byFitnessDescending (defined ([] ++ drawn)));
        [discriminate H|].
      unfold ret in H. now injection H as _ <-.
    + apply (tournamentSelection_keeps
               (fun individual =>
                  exists entry,
                    In entry population
                    /\ individual = Evaluated.individual entry)
               population src n individual n'); [|exact H].
      apply Forall_forall. intros entry Hin. eauto.
Qed.
